(** * LLM coding assistant (app.py): completion client, code-block
      extractor and snippet runner

    A shallow embedding of the three functions of [app.py] that carry
    behaviour ([call_llm_api], [extract_code_blocks] with the line pass of
    [display_message], and [run_code]) together with the properties their
    description states.

    Conventions.
    - Python text is a list of characters; a character is a code point
      below 256 ([ascii]), classified the way Python classifies it
      ([str.isspace], the [\w] class of [re] on [str] patterns).
    - Python exceptions are values of [exn]; a computation that may raise
      returns an [outcome].  Only classes deriving from [Exception] are
      modelled (what [requests], [json], [subprocess], [tempfile] and
      subscripting raise).
    - Calls into Streamlit ([st.error], [st.warning], [st.markdown]) and
      [time.sleep] are recorded in a log, in program order. *)

From Stdlib Require Import List Ascii String ZArith NArith Lia Bool.
From Stdlib Require QArith.
From stdpp Require Import gmap strings.
Import ListNotations.

Local Open Scope list_scope.

(** ** Text *)

Definition text := list ascii.

Definition T (s : string) : text := list_ascii_of_string s.

Definition newline : ascii := "010"%char.
Definition backtick : ascii := "`"%char.

(** [str.startswith] *)
Fixpoint starts_with (p s : text) : bool :=
  match p, s with
  | [], _ => true
  | _ :: _, [] => false
  | a :: p', b :: s' => Ascii.eqb a b && starts_with p' s'
  end.

Fixpoint drop_while (f : ascii -> bool) (s : text) : text :=
  match s with
  | [] => []
  | c :: s' => if f c then drop_while f s' else s
  end.

Definition in_range (lo hi n : N) : bool := (lo <=? n)%N && (n <=? hi)%N.

(** [str.isspace] on code points below 256. *)
Definition is_space (c : ascii) : bool :=
  let n := N_of_ascii c in
  in_range 9 13 n || in_range 28 32 n || (n =? 133)%N || (n =? 160)%N.

(** The class [\w] of a [str] pattern on code points below 256:
    alphanumerics (in the Unicode sense) and the underscore. *)
Definition is_word (c : ascii) : bool :=
  let n := N_of_ascii c in
  in_range 48 57 n || in_range 65 90 n || (n =? 95)%N || in_range 97 122 n
  || (n =? 170)%N || in_range 178 179 n || (n =? 181)%N
  || in_range 185 186 n || in_range 188 190 n
  || in_range 192 214 n || in_range 216 246 n || in_range 248 255 n.

(** [str.lstrip], [str.rstrip], [str.strip] with no argument. *)
Definition lstrip (s : text) : text := drop_while is_space s.
Definition rstrip (s : text) : text := rev (drop_while is_space (rev s)).
Definition strip (s : text) : text := rstrip (lstrip s).

(** ['\n'.join(ls)] *)
Fixpoint join_lines (ls : list text) : text :=
  match ls with
  | [] => []
  | [l] => l
  | l :: ls' => l ++ newline :: join_lines ls'
  end.

(** [s.split('\n')]: never empty, [''.split('\n') = ['']]. *)
Fixpoint split_lines (s : text) : list text :=
  match s with
  | [] => [[]]
  | c :: s' =>
      if Ascii.eqb c newline then [] :: split_lines s'
      else match split_lines s' with
           | [] => [[c]]
           | l :: ls => (c :: l) :: ls
           end
  end.

(** ** Code-block extractor *)

Module Extract.

Definition fence : text := [backtick; backtick; backtick].

(** *** The pattern [```(\w+)?\n(.*?)```] under [re.DOTALL]
    ([extract_code_blocks], lines 218-232)

    The matcher follows the backtracking order of [re]: a greedy
    quantifier tries the longest repetition first, a lazy one the
    shortest, an optional group is tried present before absent.  Each
    piece takes the continuation that matches the rest of the pattern. *)

(** [(.*?)```]: the body grows one character at a time until the closing
    fence matches.  Returns the body and what follows the fence. *)
Fixpoint lazy_body (s : text) : option (text * text) :=
  if starts_with fence s then Some ([], skipn 3 s)
  else match s with
       | [] => None
       | c :: s' =>
           match lazy_body s' with
           | Some (b, r) => Some (c :: b, r)
           | None => None
           end
       end.

(** [\w+], greedy: one word character, then as many more as the rest of
    the pattern tolerates. *)
Fixpoint word_plus {R} (s : text) (k : text -> text -> option R) : option R :=
  match s with
  | c :: s' =>
      if is_word c then
        match word_plus s' (fun w r => k (c :: w) r) with
        | Some x => Some x
        | None => k [c] s'
        end
      else None
  | [] => None
  end.

(** [(\w+)?]: the group present, else absent; [re.findall] reports an
    absent group as the empty string. *)
Definition word_opt {R} (s : text) (k : text -> text -> option R) : option R :=
  match word_plus s k with
  | Some x => Some x
  | None => k [] s
  end.

(** A match of the whole pattern anchored at the head of [s]: the tag, the
    body and the text after the closing fence. *)
Definition match_at (s : text) : option (text * text * text) :=
  if starts_with fence s then
    word_opt (skipn 3 s) (fun tag r =>
      match r with
      | c :: r' =>
          if Ascii.eqb c newline then
            match lazy_body r' with
            | Some (b, rest) => Some (tag, b, rest)
            | None => None
            end
          else None
      | [] => None
      end)
  else None.

(** [re.findall]: leftmost matches, not overlapping.  [skip] counts the
    characters of the last match that are still to be passed over. *)
Fixpoint findall_from (skip : nat) (s : text) : list (text * text) :=
  match s with
  | [] => []
  | _ :: s' =>
      match skip with
      | S k => findall_from k s'
      | O =>
          match match_at s with
          | Some (tag, body, rest) =>
              (tag, body) :: findall_from (length s' - length rest) s'
          | None => findall_from 0 s'
          end
      end
  end.

Definition findall (s : text) : list (text * text) := findall_from 0 s.

Record code_block := { language : text; code : text }.

Definition block_of_match (m : text * text) : code_block :=
  {| language := match fst m with [] => T "text" | _ => fst m end;
     code := strip (snd m) |}.

Definition extract_code_blocks (txt : text) : list code_block :=
  map block_of_match (findall txt).

(** *** The line pass of [display_message] (lines 302-316)

    Run when [extract_code_blocks] found a block: the lines outside the
    fenced regions are collected and handed to [st.markdown], one call per
    stretch of prose.  [rendered] lists the arguments of those calls. *)

Record pass_state := {
  current_text : list text;
  in_code_block : bool;
  rendered : list text
}.

Definition pass_init : pass_state :=
  {| current_text := []; in_code_block := false; rendered := [] |}.

(** [line.strip().startswith('```')] *)
Definition is_fence_line (line : text) : bool := starts_with fence (strip line).

Definition nonempty {A} (l : list A) : bool :=
  match l with [] => false | _ :: _ => true end.

Definition flush (st : pass_state) : pass_state :=
  {| current_text := [];
     in_code_block := in_code_block st;
     rendered := rendered st ++ [join_lines (current_text st)] |}.

Definition line_step (st : pass_state) (line : text) : pass_state :=
  if is_fence_line line then
    let st1 :=
      if nonempty (current_text st) && negb (in_code_block st)
      then flush st else st in
    {| current_text := current_text st1;
       in_code_block := negb (in_code_block st1);
       rendered := rendered st1 |}
  else if negb (in_code_block st) then
    {| current_text := current_text st ++ [line];
       in_code_block := in_code_block st;
       rendered := rendered st |}
  else st.

Definition line_pass (content : text) : pass_state :=
  fold_left line_step (split_lines content) pass_init.

(** The [st.markdown] calls of the pass, the one after the loop included. *)
Definition display_prose (content : text) : list text :=
  let st := line_pass content in
  if nonempty (current_text st) then rendered (flush st) else rendered st.

(** *** The partition into prose and fenced segments

    The same scan, described as the partition it induces: a line whose
    trimmed form starts with the fence toggles the in-block flag, the lines
    between two toggles form a segment.  A region opened by a last,
    unmatched fence is kept apart. *)

Inductive part :=
| PProse (ls : list text)
| PFenced (ls : list text)
| PUnterminated (ls : list text).

Fixpoint partition_go (in_block : bool) (acc : list text) (lines : list text)
  : list part :=
  match lines with
  | [] =>
      if in_block then [PUnterminated acc]
      else if nonempty acc then [PProse acc] else []
  | l :: rest =>
      if is_fence_line l then
        if in_block then PFenced acc :: partition_go false [] rest
        else if nonempty acc then PProse acc :: partition_go true [] rest
        else partition_go true [] rest
      else partition_go in_block (acc ++ [l]) rest
  end.

Definition partition_lines (content : text) : list part :=
  partition_go false [] (split_lines content).


Fixpoint prose_parts (ps : list part) : list (list text) :=
  match ps with
  | [] => []
  | PProse ls :: ps' => ls :: prose_parts ps'
  | _ :: ps' => prose_parts ps'
  end.

(** Every fence the scan opened was closed: the flag is down at the end. *)
Definition fences_terminated (content : text) : bool :=
  negb (in_code_block (line_pass content)).

(** *** Fenced text in the shape the pattern expects

    A document is a sequence of paragraphs and blocks; a block is written
    as an opening line (the fence directly followed by the tag), the body
    lines and a closing line that is the fence alone. *)






(** The fence occurs somewhere in [s]. *)
Fixpoint has_fence (s : text) : bool :=
  match s with
  | [] => false
  | _ :: s' => starts_with fence s || has_fence s'
  end.

Fixpoint has_newline (s : text) : bool :=
  match s with
  | [] => false
  | c :: s' => Ascii.eqb c newline || has_newline s'
  end.





(** *** The pattern read directly

    Without backtracking: the tag is the longest run of word characters
    after the opening fence, a newline must follow it, and the body ends at
    the first fence after that newline.  [match_at_direct] below shows
    that the backtracking matcher computes exactly this. *)

Fixpoint word_run (s : text) : text :=
  match s with
  | c :: s' => if is_word c then c :: word_run s' else []
  | [] => []
  end.

Definition match_direct (s : text) : option (text * text * text) :=
  if starts_with fence s then
    match drop_while is_word (skipn 3 s) with
    | c :: r' =>
        if Ascii.eqb c newline then
          match lazy_body r' with
          | Some (b, rest) => Some (word_run (skipn 3 s), b, rest)
          | None => None
          end
        else None
    | [] => None
    end
  else None.


Definition lead (ls : list text) : text :=
  concat (map (fun l => newline :: l) ls).

(** *** Notions used in the proofs *)

(** A continuation that, like the rest of the pattern after the tag,
    cannot start on a word character. *)
Definition stops_words {R} (k : text -> text -> option R) : Prop :=
  forall w c x, is_word c = true -> k w (c :: x) = None.

(** [r] does not start with a backtick: no fence can straddle the end of
    what precedes it. *)
Definition no_backtick_head (r : text) : Prop :=
  match r with
  | [] => True
  | c :: _ => Ascii.eqb backtick c = false
  end.


(** What the pass has rendered once the loop and the last flush are done. *)
Definition finish (st : pass_state) : list text :=
  if nonempty (current_text st) then rendered (flush st) else rendered st.

(** *** Sample inputs *)


(** *** Where the matches lie in the text *)

(** The text of a match: opening fence, tag, newline, body, closing fence. *)
Definition block_text (m : text * text) : text :=
  fence ++ fst m ++ newline :: snd m ++ fence.

(** [ms] occur in [s] one after the other, without overlap. *)
Inductive found_in_order : text -> list (text * text) -> Prop :=
| found_none s : found_in_order s []
| found_next pre m rest ms :
    found_in_order rest ms ->
    found_in_order (pre ++ block_text m ++ rest) (m :: ms).

(** The number of lines the pass takes for a fence. *)
Fixpoint count_fence_lines (lines : list text) : nat :=
  match lines with
  | [] => 0
  | l :: rest =>
      if is_fence_line l then S (count_fence_lines rest)
      else count_fence_lines rest
  end.

(** A line the pass hands on as prose: one line, not taken for a fence. *)
Definition prose_line (l : text) : bool :=
  negb (is_fence_line l) && negb (has_newline l).

End Extract.

(** ** Python values and exceptions *)

(** The exception classes the handlers of [app.py] tell apart.
    [requests.exceptions.Timeout] derives from [RequestException]; the
    handlers test for it first. *)
Inductive exn :=
| Timeout
| RequestException (msg : string)
| PyError (cls msg : string).

Inductive outcome (A : Type) :=
| Ok (a : A)
| Raise (e : exn).

Arguments Ok {A} a.
Arguments Raise {A} e.

Definition bind {A B} (m : outcome A) (f : A -> outcome B) : outcome B :=
  match m with
  | Ok a => f a
  | Raise e => Raise e
  end.

Notation "'let?' x ':=' m 'in' k" := (bind m (fun x => k))
  (at level 10, x name, m at level 100, k at level 200).

(** What [response.json()] returns: [None], a bool, a number, a [str], a
    [list] or a [dict] with [str] keys (distinct, in insertion order). *)
#[warnings="-register-all"]
Inductive json :=
| JNull
| JBool (b : bool)
| JNum (n : Z)
| JStr (s : string)
| JArr (items : list json)
| JObj (fields : list (string * json)).

Definition py_None : json := JNull.

Fixpoint lookup_field (k : string) (fields : list (string * json)) : option json :=
  match fields with
  | [] => None
  | (k', v) :: rest => if String.eqb k k' then Some v else lookup_field k rest
  end.

(** [k in s] on two [str]. *)
Fixpoint substring_of (k s : string) : bool :=
  String.prefix k s ||
  match s with
  | EmptyString => false
  | String _ s' => substring_of k s'
  end.

Definition is_str (k : string) (v : json) : bool :=
  match v with JStr s => String.eqb s k | _ => false end.

Definition type_error : exn := PyError "TypeError" "".

(** [k in v] for a [str] key [k]. *)
Definition py_in (k : string) (v : json) : outcome bool :=
  match v with
  | JObj fields =>
      Ok (match lookup_field k fields with Some _ => true | None => false end)
  | JArr items => Ok (existsb (is_str k) items)
  | JStr s => Ok (substring_of k s)
  | JNull | JBool _ | JNum _ => Raise type_error
  end.

(** [v[k]] for a [str] key [k]. *)
Definition py_getitem (v : json) (k : string) : outcome json :=
  match v with
  | JObj fields =>
      match lookup_field k fields with
      | Some x => Ok x
      | None => Raise (PyError "KeyError" k)
      end
  | _ => Raise type_error
  end.

(** [v[0]] *)
Definition py_getitem0 (v : json) : outcome json :=
  match v with
  | JArr (x :: _) => Ok x
  | JArr [] => Raise (PyError "IndexError" "")
  | JStr (String c _) => Ok (JStr (String c EmptyString))
  | JStr EmptyString => Raise (PyError "IndexError" "")
  | JObj _ => Raise (PyError "KeyError" "0")
  | JNull | JBool _ | JNum _ => Raise type_error
  end.

(** [len(v)] *)
Definition py_len (v : json) : outcome nat :=
  match v with
  | JArr items => Ok (length items)
  | JStr s => Ok (String.length s)
  | JObj fields => Ok (length fields)
  | JNull | JBool _ | JNum _ => Raise type_error
  end.

(** [v.get(k, dflt)] *)
Definition py_get (v : json) (k : string) (dflt : json) : outcome json :=
  match v with
  | JObj fields =>
      Ok (match lookup_field k fields with Some x => x | None => dflt end)
  | _ => Raise (PyError "AttributeError" "get")
  end.

(** The truth value of a Python value ([if v:]). *)
Definition py_truthy (v : json) : bool :=
  match v with
  | JNull => false
  | JBool b => b
  | JNum n => negb (n =? 0)%Z
  | JStr s => negb (String.eqb s "")
  | JArr items => match items with [] => false | _ :: _ => true end
  | JObj fields => match fields with [] => false | _ :: _ => true end
  end.

(** The Python operations raise [TypeError], [KeyError], [IndexError] or
    [AttributeError]: never an exception of [requests]. *)
Definition python_error (e : exn) : Prop := exists cls msg, e = PyError cls msg.

(** ** Completion client *)

Module Client.

Record message := {
  role : string;
  content : string;
  timestamp : string
}.

Record api_message := {
  api_role : string;
  api_content : string
}.

(** The body and the credential of the POST; the endpoint is fixed. *)
Record request := {
  authorization : string;
  model : string;
  messages : list api_message;
  temperature : QArith_base.Q;
  max_tokens : Z;
  stream : bool
}.

Record response := {
  status_code : Z;
  resp_json : outcome json;   (* [response.json()] *)
  resp_text : string          (* [response.text] *)
}.

(** What the user is shown ([st.error], [st.warning]); the constructors
    stand for the message texts of the source. *)
Inductive notice :=
| UnexpectedFormat                     (* Unexpected API response format *)
| InvalidApiKey                        (* Invalid API key. Please check ... *)
| RateLimited (secs : nat)             (* Rate limit exceeded. Retrying in .. seconds *)
| ApiError (status : Z) (detail : json)(* API Error (status): detail *)
| TimeoutRetry (next_attempt : nat)    (* Request timed out. Retrying... (Attempt ..) *)
| TimeoutFinal                         (* Request timed out after multiple attempts *)
| ConnectionRetry (next_attempt : nat) (* Connection error. Retrying... (Attempt ..) *)
| ConnectionFailed (msg : string)      (* Connection failed: ... *)
| UnexpectedError (e : exn).           (* Unexpected error: ... *)

Inductive event :=
| Post (req : request)      (* [requests.post] was called *)
| StError (n : notice)
| StWarning (n : notice)
| Sleep (secs : nat).

Record state := {
  calls : nat;          (* calls of [requests.post] so far *)
  log : list event
}.

Definition emit (evs : list event) (st : state) : state :=
  {| calls := calls st; log := log st ++ evs |}.

(** How the body of the loop ends. *)
Inductive ctl :=
| Return (v : json)
| Continue
| Throw (e : exn).

Definition max_retries : nat := 3.

Section Network.

(** The network: what the [n]-th call of [requests.post] does when given
    the request. *)
Variable post : request -> nat -> outcome response.

Definition do_post (req : request) (st : state) : outcome response * state :=
  (post req (calls st),
   {| calls := S (calls st); log := log st ++ [Post req] |}).

(** ['choices' in result and len(result['choices']) > 0] *)
Definition has_choices (result : json) : outcome bool :=
  let? b := py_in "choices" result in
  if b then
    let? c := py_getitem result "choices" in
    let? n := py_len c in
    Ok (0 <? n)
  else Ok false.

(** [result['choices'][0]['message']['content']] *)
Definition first_content (result : json) : outcome json :=
  let? c := py_getitem result "choices" in
  let? x := py_getitem0 c in
  let? m := py_getitem x "message" in
  py_getitem m "content".

(** The detail of an error status: [error.message] of the body when that
    can be read, the empty string when the body has no [error], the raw
    text when anything raises (the bare [except]). *)
Definition error_detail (resp : response) : json :=
  match
    (let? error_response := resp_json resp in
     let? b := py_in "error" error_response in
     if b then
       let? e := py_getitem error_response "error" in
       py_get e "message" (JStr "")
     else Ok (JStr ""))
  with
  | Ok d => d
  | Raise _ => JStr (resp_text resp)
  end.

(** The body of the inner [try] (lines 163-194). *)
Definition attempt_try (req : request) (attempt : nat) (st : state) : ctl * state :=
  let (r, st1) := do_post req st in
  match r with
  | Raise e => (Throw e, st1)
  | Ok resp =>
      if (status_code resp =? 200)%Z then
        match resp_json resp with
        | Raise e => (Throw e, st1)
        | Ok result =>
            match has_choices result with
            | Raise e => (Throw e, st1)
            | Ok true =>
                match first_content result with
                | Ok v => (Return v, st1)
                | Raise e => (Throw e, st1)
                end
            | Ok false => (Return py_None, emit [StError UnexpectedFormat] st1)
            end
        end
      else if (status_code resp =? 401)%Z then
        (Return py_None, emit [StError InvalidApiKey] st1)
      else if (status_code resp =? 429)%Z then
        (Continue,
         emit [StWarning (RateLimited (2 ^ attempt)); Sleep (2 ^ attempt)] st1)
      else
        (Return py_None,
         emit [StError (ApiError (status_code resp) (error_detail resp))] st1)
  end.

(** The inner [try] with its two handlers (lines 196-210); any other
    exception leaves the loop. *)
Definition attempt_body (req : request) (attempt : nat) (st : state) : ctl * state :=
  match attempt_try req attempt st with
  | (Throw Timeout, st1) =>
      if attempt <? max_retries - 1
      then (Continue, emit [StWarning (TimeoutRetry (attempt + 2))] st1)
      else (Return py_None, emit [StError TimeoutFinal] st1)
  | (Throw (RequestException msg), st1) =>
      if attempt <? max_retries - 1
      then (Continue,
            emit [StWarning (ConnectionRetry (attempt + 2)); Sleep 1] st1)
      else (Return py_None, emit [StError (ConnectionFailed msg)] st1)
  | other => other
  end.

(** [for attempt in range(max_retries)]; [Continue] at the end means the
    loop ran out. *)
Fixpoint retry_loop (req : request) (attempts : list nat) (st : state) : ctl * state :=
  match attempts with
  | [] => (Continue, st)
  | attempt :: rest =>
      match attempt_body req attempt st with
      | (Continue, st1) => retry_loop req rest st1
      | done => done
      end
  end.

Definition build_request (msgs : list api_message) (api_key model : string)
    (temperature : QArith_base.Q) (max_tokens : Z) : request :=
  {| authorization := "Bearer " +:+ api_key;
     model := model;
     messages := msgs;
     temperature := temperature;
     max_tokens := max_tokens;
     stream := false |}.

(** The whole function: the loop, the [return None] after it and the
    outer handler.  The result is an [outcome] so that "no exception
    reaches the caller" is a statement about it. *)
Definition call_llm_api (msgs : list api_message) (api_key model : string)
    (temperature : QArith_base.Q) (max_tokens : Z) (st : state) : outcome json * state :=
  let req := build_request msgs api_key model temperature max_tokens in
  match retry_loop req (seq 0 max_retries) st with
  | (Return v, st1) => (Ok v, st1)
  | (Continue, st1) => (Ok py_None, st1)
  | (Throw e, st1) => (Ok py_None, emit [StError (UnexpectedError e)] st1)
  end.

End Network.

(** The state after one more call of [requests.post]. *)
Definition posted (req : request) (st : state) : state :=
  {| calls := S (calls st); log := log st ++ [Post req] |}.

Definition state_init : state := {| calls := 0; log := [] |}.

(** A network that answers from a script, and times out when the script
    is over. *)
Definition scripted (script : list (outcome response)) : request -> nat -> outcome response :=
  fun _ n => nth n script (Raise Timeout).

Fixpoint posts (l : list event) : nat :=
  match l with
  | [] => 0
  | Post _ :: l' => S (posts l')
  | _ :: l' => posts l'
  end.

Fixpoint sleeps (l : list event) : list nat :=
  match l with
  | [] => []
  | Sleep n :: l' => n :: sleeps l'
  | _ :: l' => sleeps l'
  end.

(** *** What is retried *)

(** The classes the two inner handlers catch. *)
Definition is_request_exn (e : exn) : bool :=
  match e with
  | Timeout | RequestException _ => true
  | PyError _ _ => false
  end.

(** The outcomes of [requests.post] after which the loop goes on to the
    next attempt: status 429 at any attempt; before the last attempt, an
    exception of [requests] raised by the call itself or by
    [response.json()] on a status 200. *)
Definition transient (attempt : nat) (o : outcome response) : bool :=
  match o with
  | Raise e => is_request_exn e && (attempt <? max_retries - 1)
  | Ok resp =>
      (status_code resp =? 429)%Z
      || ((status_code resp =? 200)%Z
          && match resp_json resp with
             | Raise e => is_request_exn e && (attempt <? max_retries - 1)
             | Ok _ => false
             end)
  end.

Definition is_continue (c : ctl) : bool :=
  match c with Continue => true | _ => false end.

(** Every call to the network recorded in [evs] carried [req]. *)
Definition posts_carry (req : request) (evs : list event) : Prop :=
  Forall (fun ev => match ev with Post r => r = req | _ => True end) evs.

(** *** Sample responses *)

Definition resp_unauthorized : response :=
  {| status_code := 401;
     resp_json := Ok (JObj [("error", JObj [("message", JStr "Invalid API Key")])]);
     resp_text := "" |}.

Definition resp_rate_limited : response :=
  {| status_code := 429;
     resp_json := Ok (JObj [("error", JObj [("message", JStr "Rate limit reached")])]);
     resp_text := "" |}.

Definition resp_ok (answer : string) : response :=
  {| status_code := 200;
     resp_json :=
       Ok (JObj [("id", JStr "chatcmpl-1");
                 ("choices",
                  JArr [JObj [("index", JNum 0);
                              ("message", JObj [("role", JStr "assistant");
                                                ("content", JStr answer)])]])]);
     resp_text := "" |}.

(** Status 200, a non-empty [choices] array, no [message] in its first
    element. *)
Definition resp_no_message : response :=
  {| status_code := 200;
     resp_json := Ok (JObj [("choices", JArr [JObj [("index", JNum 0)]])]);
     resp_text := "" |}.

(** Status 502 with a body that is not JSON. *)
Definition resp_bad_gateway : response :=
  {| status_code := 502;
     resp_json := Raise (RequestException "Expecting value");
     resp_text := "Bad Gateway" |}.


Definition sample_messages : list api_message :=
  [ {| api_role := "user"; api_content := "Hello" |} ].

Definition sample_call (script : list (outcome response)) : outcome json * state :=
  call_llm_api (scripted script) sample_messages "gsk_key" "llama-3.1-8b-instant"
    (QArith_base.Qmake 1 10) 4000 state_init.

Definition sample_request : request :=
  build_request sample_messages "gsk_key" "llama-3.1-8b-instant"
    (QArith_base.Qmake 1 10) 4000.

(** *** Building the request of a chat turn *)

Definition get_system_prompt : string :=
"You are CodeMaster AI, an expert programming assistant specializing in:

1. **Code Generation**: Write clean, efficient, and well-documented code
2. **Multi-language Support**: Proficient in Python, JavaScript, Java, C++, C, Go, Rust, PHP, Ruby, Swift, Kotlin, TypeScript, and more
3. **Problem Solving**: Break down complex programming problems into manageable steps
4. **Code Review**: Analyze and improve existing code for performance and readability
5. **Debugging**: Identify and fix bugs with detailed explanations
6. **Best Practices**: Follow industry standards and coding conventions
7. **Documentation**: Provide clear explanations and inline comments

**Response Format Guidelines:**
- Always specify the programming language when providing code
- Use proper code formatting and syntax highlighting
- Include comments explaining complex logic
- Provide working examples when possible
- Suggest optimizations and alternatives when relevant
- Be concise but thorough in explanations

**Code Quality Standards:**
- Write production-ready code
- Follow language-specific conventions
- Include error handling where appropriate
- Optimize for readability and maintainability
- Test edge cases when relevant

Focus on delivering fast, accurate, and practical solutions.".

(** [l[-n:]] for [n > 0] *)
Definition last_n {A} (n : nat) (l : list A) : list A := skipn (length l - n) l.

Definition to_api (msg : message) : api_message :=
  {| api_role := role msg; api_content := content msg |}.

Definition system_message : api_message :=
  {| api_role := "system"; api_content := get_system_prompt |}.

(** [api_messages] of the chat handler (lines 486-490). *)
Definition api_messages (history : list message) : list api_message :=
  system_message :: map to_api (last_n 10 history).


End Client.

(** ** Snippet runner *)

Module Runner.

Record language_info := { extension : string; runner : string }.

Definition SUPPORTED_LANGUAGES : list (string * language_info) :=
  [ ("python", {| extension := ".py"; runner := "python" |});
    ("javascript", {| extension := ".js"; runner := "node" |});
    ("java", {| extension := ".java"; runner := "java" |});
    ("cpp", {| extension := ".cpp"; runner := "g++" |});
    ("c", {| extension := ".c"; runner := "gcc" |});
    ("go", {| extension := ".go"; runner := "go run" |});
    ("rust", {| extension := ".rs"; runner := "rustc" |});
    ("php", {| extension := ".php"; runner := "php" |});
    ("ruby", {| extension := ".rb"; runner := "ruby" |});
    ("swift", {| extension := ".swift"; runner := "swift" |});
    ("kotlin", {| extension := ".kt"; runner := "kotlinc" |});
    ("typescript", {| extension := ".ts"; runner := "ts-node" |});
    ("bash", {| extension := ".sh"; runner := "bash" |});
    ("powershell", {| extension := ".ps1"; runner := "powershell" |});
    ("sql", {| extension := ".sql"; runner := "sqlite3" |});
    ("html", {| extension := ".html"; runner := "browser" |});
    ("css", {| extension := ".css"; runner := "browser" |});
    ("r", {| extension := ".r"; runner := "Rscript" |});
    ("matlab", {| extension := ".m"; runner := "octave" |}) ].

(** [SUPPORTED_LANGUAGES[language]], [None] when [language] is not a key. *)
Fixpoint registry_get (language : string) (reg : list (string * language_info))
  : option language_info :=
  match reg with
  | [] => None
  | (k, info) :: rest =>
      if String.eqb language k then Some info else registry_get language rest
  end.

(** What [subprocess.run(argv, capture_output=True, text=True, timeout=10)]
    does. *)
Inductive run_result :=
| Completed (returncode : Z) (stdout stderr : string)
| TimeoutExpired
| RunRaises (msg : string).

(** The world of one call: the name [tempfile] picks, whether creating
    or writing the file raises, and how a child process ends. *)
Record env := {
  tmp_stem : string;
  create_raises : option string;
  write_raises : option string;
  sys_executable : string;
  subprocess_run : list string -> run_result
}.

(** The operations on the file system, in program order. *)
Inductive fs_op :=
| Created (path : string)
| Unlinked (path : string).

(** Files by path, with their text. *)
Record world := {
  files : gmap string string;
  ops : list fs_op
}.

Definition create (path : string) (w : world) : world :=
  {| files := <[path := ""]> (files w); ops := ops w ++ [Created path] |}.

Definition write (path data : string) (w : world) : world :=
  {| files := <[path := data]> (files w); ops := ops w |}.

Definition unlink (path : string) (w : world) : world :=
  {| files := delete path (files w); ops := ops w ++ [Unlinked path] |}.

Definition not_supported (language : string) : string :=
  "Language " +:+ language +:+ " not supported for execution".

Definition not_implemented (language : string) : string :=
  "Execution for " +:+ language +:+ " not implemented in this demo".

Definition execution_error (msg : string) : string := "Execution error: " +:+ msg.

Definition timed_out : string := "Code execution timed out".

(** After a child process was started: the clean-up and the verdict on
    the normal path (lines 265-271), the two handlers on the others
    (lines 273-276). *)
Definition after_run (r : run_result) (tmp_file_path : string) (w : world)
  : (bool * string) * world :=
  match r with
  | Completed returncode stdout stderr =>
      let w' := unlink tmp_file_path w in
      if (returncode =? 0)%Z then ((true, stdout), w') else ((false, stderr), w')
  | TimeoutExpired => ((false, timed_out), w)
  | RunRaises msg => ((false, execution_error msg), w)
  end.

Definition run_code (e : env) (code language : string) (w : world)
  : (bool * string) * world :=
  match registry_get language SUPPORTED_LANGUAGES with
  | None => ((false, not_supported language), w)
  | Some info =>
      match create_raises e with
      | Some msg => ((false, execution_error msg), w)
      | None =>
          let tmp_file_path := tmp_stem e +:+ extension info in
          let w1 := create tmp_file_path w in
          match write_raises e with
          | Some msg => ((false, execution_error msg), w1)
          | None =>
              let w2 := write tmp_file_path code w1 in
              if String.eqb language "python" then
                after_run (subprocess_run e [sys_executable e; tmp_file_path])
                  tmp_file_path w2
              else if String.eqb language "javascript" then
                after_run (subprocess_run e ["node"; tmp_file_path])
                  tmp_file_path w2
              else ((false, not_implemented language), w2)
          end
      end
  end.

Definition world_init : world := {| files := ∅; ops := [] |}.

(** [path] was created during the call. *)
Definition created (path : string) (w : world) : Prop := In (Created path) (ops w).

(** [path] is on disk. *)
Definition on_disk (path : string) (w : world) : Prop := is_Some (files w !! path).


(** *** Sample worlds *)

Definition sample_env (child : run_result) : env :=
  {| tmp_stem := "/tmp/tmpk3x9w2";
     create_raises := None;
     write_raises := None;
     sys_executable := "/usr/bin/python3";
     subprocess_run := fun _ => child |}.

End Runner.

(** ** The chat handler and the connection test *)

Module Session.

(** [st.session_state] *)
Record session := {
  messages : list Client.message;
  api_key : string;
  model : string;
  temperature : QArith_base.Q;
  max_tokens : Z
}.

Definition with_messages (s : session) (ms : list Client.message) : session :=
  {| messages := ms;
     api_key := api_key s;
     model := model s;
     temperature := temperature s;
     max_tokens := max_tokens s |}.

(** What the handlers put on the page, apart from what [call_llm_api]
    itself reports. *)
Inductive shown :=
| Displayed (m : Client.message) (is_user : bool)  (* [display_message] *)
| KeyMissing          (* Please enter your Groq API key in the sidebar to continue. *)
| GenerationFailed    (* Failed to generate response. Please check ... *)
| TestKeyMissing      (* Please enter your API key first *)
| ConnectionOk        (* Connection successful! *)
| ConnectionKo.       (* Connection failed *)

Section Handlers.

Variable post : Client.request -> nat -> outcome Client.response.

(** The chat input handler (lines 467-513), for the prompt typed and the
    two readings of the clock.  An empty prompt does not enter the
    handler; without a key the script stops after the error.  [None]
    stands for a turn that leaves the model: an exception reaches the
    caller, which happens when the answer is a true value that is not
    text ([display_message] cannot take it). *)
Definition chat_turn (t_user t_reply prompt : string) (s : session)
    (st : Client.state) : option (session * list shown * Client.state) :=
  if String.eqb prompt "" then Some (s, [], st)
  else if String.eqb (api_key s) "" then Some (s, [KeyMissing], st)
  else
    let user_message :=
      {| Client.role := "user"; Client.content := prompt;
         Client.timestamp := t_user |} in
    let s1 := with_messages s (messages s ++ [user_message]) in
    let api_messages := Client.api_messages (messages s1) in
    match Client.call_llm_api post api_messages (api_key s1) (model s1)
            (temperature s1) (max_tokens s1) st with
    | (Ok response, st1) =>
        if py_truthy response then
          match response with
          | JStr answer =>
              let assistant_message :=
                {| Client.role := "assistant"; Client.content := answer;
                   Client.timestamp := t_reply |} in
              Some (with_messages s1 (messages s1 ++ [assistant_message]),
                    [Displayed user_message true;
                     Displayed assistant_message false],
                    st1)
          | _ => None
          end
        else Some (s1, [Displayed user_message true; GenerationFailed], st1)
    | (Raise _, _) => None
    end.

(** Several turns, one after the other; each turn gives the prompt and
    the two clock readings. *)
Fixpoint chat_turns (turns : list (string * string * string)) (s : session)
    (st : Client.state) : option (session * Client.state) :=
  match turns with
  | [] => Some (s, st)
  | (prompt, t_user, t_reply) :: rest =>
      match chat_turn t_user t_reply prompt s st with
      | Some (s1, _, st1) => chat_turns rest s1 st1
      | None => None
      end
  end.

Definition probe : list Client.api_message :=
  [ {| Client.api_role := "user";
       Client.api_content :=
         "Hello, just testing the connection. Please respond with 'Connection successful!'" |} ].

(** The "Test API Connection" button (lines 422-434), with the key and
    the model of the sidebar. *)
Definition test_connection (api_key model : string) (st : Client.state)
  : option (list shown * Client.state) :=
  if String.eqb api_key "" then Some ([TestKeyMissing], st)
  else
    match Client.call_llm_api post probe api_key model
            (QArith_base.Qmake 1 10) 100 st with
    | (Ok test_response, st1) =>
        if py_truthy test_response then Some ([ConnectionOk], st1)
        else Some ([ConnectionKo], st1)
    | (Raise _, _) => None
    end.

End Handlers.

(** The "Clear Chat" button. *)
Definition clear_chat (s : session) : session := with_messages s [].

(** The roles a stored message can have. *)
Definition stored_role (m : Client.message) : Prop :=
  Client.role m = "user" \/ Client.role m = "assistant".

(** The message the handler stores for a prompt. *)
Definition user_message_of (prompt t_user : string) : Client.message :=
  {| Client.role := "user"; Client.content := prompt;
     Client.timestamp := t_user |}.

Definition sample_session : session :=
  {| messages := [];
     api_key := "gsk_key";
     model := "llama-3.1-8b-instant";
     temperature := QArith_base.Qmake 1 10;
     max_tokens := 4000 |}.

End Session.

(** ** The model of the sidebar *)

Module Sidebar.

Definition GROQ_MODELS : list (string * string) :=
  [ ("llama-3.1-8b-instant", "Llama 3.1 8B (Fastest)");
    ("llama-3.1-70b-versatile", "Llama 3.1 70B (Most Capable)");
    ("llama-3.2-1b-preview", "Llama 3.2 1B (Preview)");
    ("llama-3.2-3b-preview", "Llama 3.2 3B (Preview)");
    ("mixtral-8x7b-32768", "Mixtral 8x7B");
    ("gemma2-9b-it", "Gemma 2 9B");
    ("gemma-7b-it", "Gemma 7B");
    ("llama3-8b-8192", "Llama 3 8B (Legacy)");
    ("llama3-70b-8192", "Llama 3 70B (Legacy)") ].

(** [list(GROQ_MODELS.keys())] *)
Definition model_keys : list string := map fst GROQ_MODELS.

(** [l.index(x)]; [None] where Python raises [ValueError]. *)
Fixpoint index_of (x : string) (l : list string) : option nat :=
  match l with
  | [] => None
  | y :: rest =>
      if String.eqb x y then Some 0
      else match index_of x rest with
           | Some i => Some (S i)
           | None => None
           end
  end.

(** Lines 359-361: the index the select box starts on. *)
Definition selected_index (session_model : string) : nat :=
  match index_of session_model model_keys with
  | Some i => i
  | None => 0
  end.

(** Lines 363-371: the model of this run.  [choice] is the option the
    user picked in the select box, [None] when the box was left as it
    came up.  The result is [None] where [model_keys[...]] would raise. *)
Definition sidebar_model (session_model : string) (choice : option nat)
  : option string :=
  let selected_model_index :=
    match choice with
    | Some i => i
    | None => selected_index session_model
    end in
  nth_error model_keys selected_model_index.

End Sidebar.

(** ** Showing a message *)

Module Display.

Inductive widget :=
| Header (is_user : bool) (timestamp : string)
| Markdown (t : text)
| Badge (language : text)          (* shown in upper case *)
| Code (code language : text)
| RunButton (index n_messages : nat)  (* key [run_{index}_{n_messages}] *)
| Success                          (* Code executed successfully! *)
| Failure                          (* Execution failed! *)
| Output (output : string).        (* [st.code(output, language='text')] *)

(** [block['language'] in ['python', 'javascript']] *)
Definition runnable (language : text) : bool :=
  String.eqb (string_of_list_ascii language) "python"
  || String.eqb (string_of_list_ascii language) "javascript".

(** What a click on "Run" shows (lines 329-337). *)
Definition run_block (e : Runner.env) (block : Extract.code_block) (w : Runner.world)
  : list widget * Runner.world :=
  let '((success, output), w1) :=
    Runner.run_code e (string_of_list_ascii (Extract.code block))
      (string_of_list_ascii (Extract.language block)) w in
  if success then
    (Success ::
       (if Extract.nonempty (strip (list_ascii_of_string output))
        then [Output output] else []),
     w1)
  else ([Failure; Output output], w1).

(** The loop over the code blocks (lines 319-337).  [envs i] is the world
    a run of block [i] meets, [clicked i] tells whether its button was
    pressed. *)
Fixpoint show_blocks (envs : nat -> Runner.env) (clicked : nat -> bool)
    (n_messages i : nat) (blocks : list Extract.code_block) (w : Runner.world)
  : list widget * Runner.world :=
  match blocks with
  | [] => ([], w)
  | block :: rest =>
      let shown_block :=
        [Badge (Extract.language block);
         Code (Extract.code block) (Extract.language block)] in
      let '(run, w1) :=
        if runnable (Extract.language block) then
          if clicked i then
            let '(result, w') := run_block (envs i) block w in
            (RunButton i n_messages :: result, w')
          else ([RunButton i n_messages], w)
        else ([], w) in
      let '(others, w2) := show_blocks envs clicked n_messages (S i) rest w1 in
      (shown_block ++ run ++ others, w2)
  end.

(** [display_message] (lines 278-339); [n_messages] is
    [len(st.session_state.messages)]. *)
Definition display_message (envs : nat -> Runner.env) (clicked : nat -> bool)
    (n_messages : nat) (message : Client.message) (is_user : bool)
    (w : Runner.world) : list widget * Runner.world :=
  let header := Header is_user (Client.timestamp message) in
  let content := list_ascii_of_string (Client.content message) in
  if is_user then ([header; Markdown content], w)
  else
    let code_blocks := Extract.extract_code_blocks content in
    if Extract.nonempty code_blocks then
      let '(blocks, w1) := show_blocks envs clicked n_messages 0 code_blocks w in
      (header :: map Markdown (Extract.display_prose content) ++ blocks, w1)
    else ([header; Markdown content], w).

(** The code blocks a list of widgets shows. *)
Fixpoint codes_shown (ws : list widget) : list (text * text) :=
  match ws with
  | [] => []
  | Code c l :: rest => (l, c) :: codes_shown rest
  | _ :: rest => codes_shown rest
  end.

(** A temporary file of a Python or JavaScript run. *)
Definition script_path (p : string) : Prop :=
  exists stem, p = stem +:+ ".py" \/ p = stem +:+ ".js".

(** An operation on a temporary file of a Python or JavaScript run. *)
Definition script_op (op : Runner.fs_op) : Prop :=
  match op with
  | Runner.Created p | Runner.Unlinked p => script_path p
  end.

End Display.

(** * Properties *)

Import Extract.

(** A message with a tagged and an untagged block. *)
Example ex_two : extract_code_blocks (T "a
```py
x = 1
```
b
```
y
```") = [ {| language := T "py"; code := T "x = 1" |};
          {| language := T "text"; code := T "y" |} ].
Proof. vm_compute. reflexivity. Qed.

(** ** Characters and prefixes *)

Lemma is_word_not_newline c : is_word c = true -> Ascii.eqb c newline = false.
Proof.
  intros Hw. destruct (Ascii.eqb_spec c newline) as [->|]; [|reflexivity].
  vm_compute in Hw. discriminate.
Qed.

Lemma is_word_not_space c : is_word c = true -> is_space c = false.
Proof.
  destruct c as [[] [] [] [] [] [] [] []]; vm_compute; congruence.
Qed.

Lemma starts_with_app p r : starts_with p (p ++ r) = true.
Proof.
  induction p as [|a p IH]; simpl; [reflexivity|].
  rewrite Ascii.eqb_refl. exact IH.
Qed.

Lemma starts_with_inv p s :
  starts_with p s = true -> exists r, s = p ++ r.
Proof.
  revert s. induction p as [|a p IH]; intros s H; simpl in *.
  - exists s. reflexivity.
  - destruct s as [|b s]; [discriminate|].
    apply andb_true_iff in H as [Hab Hp].
    apply Ascii.eqb_eq in Hab. subst b.
    destruct (IH _ Hp) as [r ->]. exists r. reflexivity.
Qed.

Lemma drop_while_split f s : exists p, s = p ++ drop_while f s.
Proof.
  induction s as [|c s [p Hp]]; simpl.
  - exists []. reflexivity.
  - destruct (f c).
    + exists (c :: p). simpl. f_equal. exact Hp.
    + exists []. reflexivity.
Qed.

Lemma drop_while_app_stop f x y z :
  f y = false -> drop_while f (x ++ y :: z) = drop_while f x ++ y :: z.
Proof.
  intros Hy. induction x as [|c x IH]; simpl.
  - rewrite Hy. reflexivity.
  - destruct (f c); [exact IH | reflexivity].
Qed.

Lemma rstrip_prefix s : exists q, s = rstrip s ++ q.
Proof.
  unfold rstrip. destruct (drop_while_split is_space (rev s)) as [p Hp].
  exists (rev p). rewrite <- rev_app_distr, <- Hp, rev_involutive. reflexivity.
Qed.

Lemma strip_inside s : exists p q, s = p ++ strip s ++ q.
Proof.
  unfold strip, lstrip.
  destruct (drop_while_split is_space s) as [p Hp].
  destruct (rstrip_prefix (drop_while is_space s)) as [q Hq].
  exists p, q. rewrite <- Hq. exact Hp.
Qed.




(** ** The backtracking matcher and the direct reading agree *)

Section Backtracking.

Context {R : Type}.

Lemma word_plus_run s : forall k : text -> text -> option R,
  stops_words k ->
  word_plus s k =
  match s with
  | c :: _ => if is_word c then k (word_run s) (drop_while is_word s) else None
  | [] => None
  end.
Proof.
  induction s as [|c s IH]; intros k Hk; [reflexivity|].
  simpl. destruct (is_word c) eqn:Hc; [|reflexivity].
  rewrite IH by (intros w d x Hd; apply Hk; exact Hd).
  destruct s as [|d s]; [reflexivity|].
  cbn [word_run drop_while]. destruct (is_word d) eqn:Hd; [|reflexivity].
  match goal with |- match ?e with _ => _ end = _ => destruct e eqn:He end;
    [reflexivity|].
  apply Hk. exact Hd.
Qed.

Lemma word_opt_run s (k : text -> text -> option R) :
  stops_words k -> word_opt s k = k (word_run s) (drop_while is_word s).
Proof.
  intros Hk. unfold word_opt. rewrite word_plus_run by exact Hk.
  destruct s as [|c s]; simpl; [destruct (k [] []); reflexivity|].
  destruct (is_word c) eqn:Hc; [|reflexivity].
  match goal with |- match ?e with _ => _ end = _ => destruct e eqn:He end;
    [reflexivity|].
  apply Hk. exact Hc.
Qed.

End Backtracking.

Lemma match_at_direct s : match_at s = match_direct s.
Proof.
  unfold match_at, match_direct.
  destruct (starts_with fence s); [|reflexivity].
  rewrite word_opt_run.
  - destruct (drop_while is_word (skipn 3 s)) as [|c r]; [reflexivity|].
    destruct (Ascii.eqb c newline); [|reflexivity].
    destruct (lazy_body r) as [[b rest]|]; reflexivity.
  - intros w c x Hc. rewrite (is_word_not_newline c Hc). reflexivity.
Qed.

Lemma word_run_all s : forallb is_word (word_run s) = true.
Proof.
  induction s as [|c s IH]; simpl; [reflexivity|].
  destruct (is_word c) eqn:Hc; simpl; [|reflexivity].
  rewrite Hc. exact IH.
Qed.


(** ** Where the fence occurs *)

Lemma has_fence_intro a b : has_fence (a ++ fence ++ b) = true.
Proof.
  induction a as [|c a IH].
  - reflexivity.
  - change ((c :: a) ++ fence ++ b) with (c :: (a ++ fence ++ b)).
    cbn [has_fence]. rewrite IH. apply orb_true_r.
Qed.



Lemma lazy_body_fence r : lazy_body (fence ++ r) = Some ([], r).
Proof. reflexivity. Qed.


Lemma lazy_body_none s : has_fence s = false -> lazy_body s = None.
Proof.
  induction s as [|c s IH]; intros H; [reflexivity|].
  cbn [has_fence] in H. apply orb_false_iff in H as [Hs Hr].
  cbn [lazy_body]. rewrite Hs, (IH Hr). reflexivity.
Qed.

(** ** [findall] *)

Lemma findall_from_skip p r k :
  findall_from (length p + k) (p ++ r) = findall_from k r.
Proof. induction p as [|c p IH]; simpl; [reflexivity | exact IH]. Qed.

Lemma findall_match c p tag b rest :
  match_at (c :: p ++ rest) = Some (tag, b, rest) ->
  findall (c :: p ++ rest) = (tag, b) :: findall rest.
Proof.
  intros H. unfold findall. cbn [findall_from]. rewrite H. f_equal.
  replace (length (p ++ rest) - length rest) with (length p + 0)
    by (rewrite length_app; lia).
  apply findall_from_skip.
Qed.

Lemma findall_no_match c s : match_at (c :: s) = None -> findall (c :: s) = findall s.
Proof. intros H. unfold findall. cbn [findall_from]. rewrite H. reflexivity. Qed.



(** Every tag [findall] reports is made of word characters. *)
Lemma match_at_tag s tag b rest :
  match_at s = Some (tag, b, rest) -> forallb is_word tag = true.
Proof.
  rewrite match_at_direct. unfold match_direct.
  destruct (starts_with fence s); [|discriminate].
  destruct (drop_while is_word (skipn 3 s)) as [|c r]; [discriminate|].
  destruct (Ascii.eqb c newline); [|discriminate].
  destruct (lazy_body r) as [[b' rest']|]; [|discriminate].
  intros [= <- _ _]. apply word_run_all.
Qed.

Lemma findall_from_tags s : forall k m,
  In m (findall_from k s) -> forallb is_word (fst m) = true.
Proof.
  induction s as [|c s IH]; intros k m Hm; [destruct Hm|].
  cbn [findall_from] in Hm. destruct k as [|k]; [|exact (IH _ _ Hm)].
  destruct (match_at (c :: s)) as [[[tag b] rest]|] eqn:E; [|exact (IH _ _ Hm)].
  destruct Hm as [<- | Hm]; [|exact (IH _ _ Hm)].
  exact (match_at_tag _ _ _ _ E).
Qed.

(** ** Lines *)










Lemma lead_head ls r : no_backtick_head (lead ls ++ newline :: r).
Proof. destruct ls; reflexivity. Qed.




(** ** Blocks of a canonical document *)








(** ** Splitting into lines *)

Lemma split_lines_line l x :
  has_newline l = false -> split_lines (l ++ newline :: x) = l :: split_lines x.
Proof.
  intros H. induction l as [|c l IH]; [reflexivity|].
  cbn [has_newline] in H. apply orb_false_iff in H as [Hc Hl].
  change ((c :: l) ++ newline :: x) with (c :: (l ++ newline :: x)).
  cbn [split_lines]. rewrite Hc, (IH Hl). reflexivity.
Qed.

Lemma split_lines_last l : has_newline l = false -> split_lines l = [l].
Proof.
  intros H. induction l as [|c l IH]; [reflexivity|].
  cbn [has_newline] in H. apply orb_false_iff in H as [Hc Hl].
  cbn [split_lines]. rewrite Hc, (IH Hl). reflexivity.
Qed.

Lemma split_join l ls :
  forallb (fun x => negb (has_newline x)) (l :: ls) = true ->
  split_lines (join_lines (l :: ls)) = l :: ls.
Proof.
  revert l. induction ls as [|l' ls IH]; intros l H.
  - cbn in H. rewrite andb_true_r in H. apply negb_true_iff in H.
    apply split_lines_last. exact H.
  - cbn [forallb] in H. apply andb_true_iff in H as [Hl H].
    apply negb_true_iff in Hl.
    change (join_lines (l :: l' :: ls)) with (l ++ newline :: join_lines (l' :: ls)).
    rewrite (split_lines_line _ _ Hl), (IH _ H). reflexivity.
Qed.

(** ** Fence lines *)




(** ** The partition of a canonical document *)




Lemma line_step_fence st l :
  is_fence_line l = true -> in_code_block (line_step st l) = negb (in_code_block st).
Proof.
  intros H. unfold line_step. rewrite H.
  destruct (nonempty (current_text st) && negb (in_code_block st)); reflexivity.
Qed.








(** ** The line pass renders the prose segments of the partition *)

Lemma pass_partition lines : forall st acc,
  (in_code_block st = true -> current_text st = []) ->
  (in_code_block st = false -> acc = current_text st) ->
  finish (fold_left line_step lines st)
  = rendered st
    ++ map join_lines (prose_parts (partition_go (in_code_block st) acc lines)).
Proof.
  induction lines as [|l lines IH]; intros [ct flag out] acc Hin Hout;
    cbn [in_code_block current_text rendered] in *.
  - cbn [fold_left partition_go]. unfold finish. cbn [current_text rendered flush].
    destruct flag.
    + rewrite (Hin eq_refl). cbn. rewrite app_nil_r. reflexivity.
    + rewrite (Hout eq_refl). destruct ct; cbn; [rewrite app_nil_r|]; reflexivity.
  - cbn [fold_left partition_go]. unfold line_step.
    cbn [in_code_block current_text rendered].
    destruct (is_fence_line l), flag; cbn [negb andb].
    + rewrite andb_false_r. cbn [in_code_block current_text rendered negb].
      rewrite (IH _ []); cbn [in_code_block current_text rendered];
        [reflexivity | discriminate | intros _; symmetry; exact (Hin eq_refl)].
    + rewrite andb_true_r, (Hout eq_refl).
      destruct ct as [|c ct]; cbn [nonempty flush in_code_block current_text rendered negb].
      * rewrite (IH _ []); cbn [in_code_block current_text rendered];
          [reflexivity | reflexivity | discriminate].
      * rewrite (IH _ []); cbn [in_code_block current_text rendered];
          [|reflexivity | discriminate].
        cbn [prose_parts map]. rewrite <- app_assoc. reflexivity.
    + rewrite (IH _ (acc ++ [l])); cbn [in_code_block current_text rendered];
        [reflexivity | exact Hin | discriminate].
    + rewrite (IH _ (acc ++ [l])); cbn [in_code_block current_text rendered];
        [reflexivity | discriminate | intros _; rewrite (Hout eq_refl); reflexivity].
Qed.

Lemma display_prose_partition content :
  display_prose content = map join_lines (prose_parts (partition_lines content)).
Proof.
  unfold display_prose, partition_lines, line_pass.
  exact (pass_partition (split_lines content) pass_init [] (fun H => eq_refl)
           (fun H => eq_refl)).
Qed.

(** ** The extractor and the line pass: the stated properties *)

Lemma tag_stops_match tag r :
  has_newline tag = false -> forallb is_word tag = false ->
  exists c x,
    drop_while is_word (tag ++ newline :: r) = c :: x
    /\ Ascii.eqb c newline = false.
Proof.
  induction tag as [|a tag IH]; intros Hn Hw; [discriminate|].
  cbn [has_newline] in Hn. apply orb_false_iff in Hn as [Ha Hn].
  cbn [forallb] in Hw. cbn [app drop_while].
  destruct (is_word a) eqn:Hwa.
  - apply IH; [exact Hn | exact Hw].
  - exists a, (tag ++ newline :: r). split; [reflexivity | exact Ha].
Qed.







(** C10: the language of every extracted block is non-empty and made of
    word characters only (the tag the pattern captured, or the default
    ["text"]); and the pattern does not match at a fence whose tag, up to
    the end of the line, contains a character that is not a word
    character, so the scan moves on to the next position. *)
Theorem extracted_language_is_word :
  (forall txt b, In b (extract_code_blocks txt) ->
     language b <> [] /\ forallb is_word (language b) = true)
  /\ (forall tag r,
        has_newline tag = false -> forallb is_word tag = false ->
        match_at (fence ++ tag ++ newline :: r) = None
        /\ findall (fence ++ tag ++ newline :: r)
           = findall ([backtick; backtick] ++ tag ++ newline :: r)).
Proof.
  split.
  - intros txt b Hb. unfold extract_code_blocks in Hb.
    apply in_map_iff in Hb as (m & <- & Hm).
    pose proof (findall_from_tags txt 0 m Hm) as Hw.
    unfold block_of_match. cbn [language].
    destruct (fst m) as [|c tag]; [split; [discriminate | reflexivity]|].
    split; [discriminate | exact Hw].
  - intros tag r Hn Hw.
    assert (Hm : match_at (fence ++ tag ++ newline :: r) = None).
    { rewrite match_at_direct. unfold match_direct. rewrite starts_with_app.
      change (skipn 3 (fence ++ ?x)) with x.
      destruct (tag_stops_match tag r Hn Hw) as (c & x & -> & ->). reflexivity. }
    split; [exact Hm|].
    apply (findall_no_match backtick). exact Hm.
Qed.

Lemma extracted_language_is_word_witness :
  (language {| language := T "py"; code := T "x = 1" |} <> []
   /\ forallb is_word (T "py") = true)
  /\ match_at (fence ++ T "c++" ++ newline :: T "int x;
```") = None.
Proof.
  destruct extracted_language_is_word as [Hlang Hfence]. split.
  - apply (Hlang (T "```py
x = 1
```")). vm_compute. left. reflexivity.
  - apply (Hfence (T "c++")); reflexivity.
Defined.

(** ** Completion client *)

Import Client.

Section ClientFacts.

Variable post : request -> nat -> outcome response.

Lemma py_in_error k v e : py_in k v = Raise e -> python_error e.
Proof. destruct v; intros [= <-]; eexists _, _; reflexivity. Qed.

Lemma py_len_error v e : py_len v = Raise e -> python_error e.
Proof. destruct v; intros [= <-]; eexists _, _; reflexivity. Qed.

Lemma py_getitem_error v k e : py_getitem v k = Raise e -> python_error e.
Proof.
  destruct v; try (intros [= <-]; eexists _, _; reflexivity).
  cbn. destruct (lookup_field k fields); intros [= <-]. eexists _, _; reflexivity.
Qed.

Lemma py_getitem0_error v e : py_getitem0 v = Raise e -> python_error e.
Proof.
  destruct v as [| | |s|items|]; try (intros [= <-]; eexists _, _; reflexivity).
  - destruct s; intros [= <-]; eexists _, _; reflexivity.
  - destruct items; intros [= <-]; eexists _, _; reflexivity.
Qed.

Lemma bind_raise {A B} (m : outcome A) (f : A -> outcome B) e :
  bind m f = Raise e -> m = Raise e \/ exists a, m = Ok a /\ f a = Raise e.
Proof.
  destruct m; cbn; intros H; [right; eauto | left; injection H as ->; reflexivity].
Qed.

Lemma has_choices_error result e : has_choices result = Raise e -> python_error e.
Proof.
  unfold has_choices. intros H.
  apply bind_raise in H as [H | (b & _ & H)]; [exact (py_in_error _ _ _ H)|].
  destruct b; [|discriminate].
  apply bind_raise in H as [H | (c & _ & H)]; [exact (py_getitem_error _ _ _ H)|].
  apply bind_raise in H as [H | (n & _ & H)]; [exact (py_len_error _ _ H)|].
  discriminate.
Qed.

Lemma first_content_error result e : first_content result = Raise e -> python_error e.
Proof.
  unfold first_content. intros H.
  apply bind_raise in H as [H | (c & _ & H)]; [exact (py_getitem_error _ _ _ H)|].
  apply bind_raise in H as [H | (x & _ & H)]; [exact (py_getitem0_error _ _ H)|].
  apply bind_raise in H as [H | (m & _ & H)]; [exact (py_getitem_error _ _ _ H)|].
  exact (py_getitem_error _ _ _ H).
Qed.

(** The shapes of a body the source has in mind. *)
Lemma has_choices_shape fields x xs :
  lookup_field "choices" fields = Some (JArr (x :: xs)) ->
  has_choices (JObj fields) = Ok true.
Proof. intros H. unfold has_choices. cbn. rewrite H. reflexivity. Qed.

Lemma first_content_shape fields x xs xf mf v :
  lookup_field "choices" fields = Some (JArr (x :: xs)) ->
  x = JObj xf ->
  lookup_field "message" xf = Some (JObj mf) ->
  lookup_field "content" mf = Some v ->
  first_content (JObj fields) = Ok v.
Proof.
  intros H -> Hm Hc. unfold first_content. cbn. rewrite H. cbn.
  rewrite Hm. cbn. rewrite Hc. reflexivity.
Qed.

Lemma has_choices_absent fields :
  lookup_field "choices" fields = None
  \/ lookup_field "choices" fields = Some (JArr []) ->
  has_choices (JObj fields) = Ok false.
Proof. intros [H | H]; unfold has_choices; cbn; rewrite H; reflexivity. Qed.

(** *** One attempt *)

Lemma emit_calls evs st : calls (emit evs st) = calls st.
Proof. reflexivity. Qed.

Lemma attempt_try_calls req attempt st :
  calls (snd (attempt_try post req attempt st)) = S (calls st).
Proof.
  unfold attempt_try, do_post.
  destruct (post req (calls st)) as [resp|e]; [|reflexivity].
  destruct (status_code resp =? 200)%Z.
  - destruct (resp_json resp) as [result|e]; [|reflexivity].
    destruct (has_choices result) as [[]|e]; [|reflexivity|reflexivity].
    destruct (first_content result); reflexivity.
  - destruct (status_code resp =? 401)%Z; [reflexivity|].
    destruct (status_code resp =? 429)%Z; reflexivity.
Qed.

Lemma attempt_body_calls req attempt st :
  calls (snd (attempt_body post req attempt st)) = S (calls st).
Proof.
  unfold attempt_body. pose proof (attempt_try_calls req attempt st) as H.
  destruct (attempt_try post req attempt st) as [[v| |[|msg|cls msg]] st1];
    cbn [snd] in *; try exact H;
    destruct (attempt <? max_retries - 1); exact H.
Qed.

Lemma retry_loop_calls req attempts : forall st,
  calls (snd (retry_loop post req attempts st)) <= calls st + length attempts.
Proof.
  induction attempts as [|a rest IH]; intros st; cbn [retry_loop length].
  - cbn. lia.
  - pose proof (attempt_body_calls req a st) as H.
    destruct (attempt_body post req a st) as [[v| |e] st1]; cbn [snd] in *;
      [lia | | lia].
    specialize (IH st1). lia.
Qed.

Lemma attempt_rate_limited req attempt st resp :
  post req (calls st) = Ok resp ->
  status_code resp = 429%Z ->
  attempt_body post req attempt st
  = (Continue,
     emit [StWarning (RateLimited (2 ^ attempt)); Sleep (2 ^ attempt)]
       (posted req st)).
Proof.
  intros Hp Hs. unfold attempt_body, attempt_try, do_post.
  rewrite Hp, Hs. reflexivity.
Qed.

Lemma attempt_unauthorized req attempt st resp :
  post req (calls st) = Ok resp ->
  status_code resp = 401%Z ->
  attempt_body post req attempt st
  = (Return py_None, emit [StError InvalidApiKey] (posted req st)).
Proof.
  intros Hp Hs. unfold attempt_body, attempt_try, do_post.
  rewrite Hp, Hs. reflexivity.
Qed.

Lemma attempt_ok_content req attempt st resp result v :
  post req (calls st) = Ok resp ->
  status_code resp = 200%Z ->
  resp_json resp = Ok result ->
  has_choices result = Ok true ->
  first_content result = Ok v ->
  attempt_body post req attempt st = (Return v, posted req st).
Proof.
  intros Hp Hs Hj Hc Hv. unfold attempt_body, attempt_try, do_post.
  rewrite Hp, Hs. cbn. rewrite Hj, Hc, Hv. reflexivity.
Qed.

Lemma attempt_ok_no_choices req attempt st resp result :
  post req (calls st) = Ok resp ->
  status_code resp = 200%Z ->
  resp_json resp = Ok result ->
  has_choices result = Ok false ->
  attempt_body post req attempt st
  = (Return py_None, emit [StError UnexpectedFormat] (posted req st)).
Proof.
  intros Hp Hs Hj Hc. unfold attempt_body, attempt_try, do_post.
  rewrite Hp, Hs. cbn. rewrite Hj, Hc. reflexivity.
Qed.

Lemma attempt_ok_raises req attempt st resp result e :
  post req (calls st) = Ok resp ->
  status_code resp = 200%Z ->
  resp_json resp = Ok result ->
  has_choices result = Raise e
  \/ has_choices result = Ok true /\ first_content result = Raise e ->
  attempt_body post req attempt st = (Throw e, posted req st).
Proof.
  intros Hp Hs Hj Hc. unfold attempt_body, attempt_try, do_post.
  rewrite Hp, Hs. cbn. rewrite Hj.
  destruct Hc as [Hc | [Hc Hv]].
  - rewrite Hc. destruct (has_choices_error _ _ Hc) as (cls & msg & ->). reflexivity.
  - rewrite Hc, Hv.
    destruct (first_content_error _ _ Hv) as (cls & msg & ->). reflexivity.
Qed.

Lemma attempt_other_status req attempt st resp :
  post req (calls st) = Ok resp ->
  status_code resp <> 200%Z -> status_code resp <> 401%Z ->
  status_code resp <> 429%Z ->
  attempt_body post req attempt st
  = (Return py_None,
     emit [StError (ApiError (status_code resp) (error_detail resp))]
       (posted req st)).
Proof.
  intros Hp H2 H4 H9. unfold attempt_body, attempt_try, do_post. rewrite Hp.
  apply Z.eqb_neq in H2, H4, H9. rewrite H2, H4, H9. reflexivity.
Qed.

End ClientFacts.

Section ClientClaims.

Variable post : request -> nat -> outcome response.
Variables (msgs : list api_message) (api_key model : string).
Variables (temperature : QArith_base.Q) (max_tokens : Z).

Let req := build_request msgs api_key model temperature max_tokens.
Let call := call_llm_api post msgs api_key model temperature max_tokens.

(** Open the call up to the first attempt of the loop. *)
Ltac enter_loop :=
  unfold call, call_llm_api; fold req; cbn [seq max_retries retry_loop].

(** What a returned value can be: [None], or the content of a body that
    came with status 200. *)
Lemma attempt_body_return attempt st v st' :
  attempt_body post req attempt st = (Return v, st') ->
  v = py_None
  \/ exists resp result,
       post req (calls st) = Ok resp /\ status_code resp = 200%Z
       /\ resp_json resp = Ok result /\ first_content result = Ok v.
Proof.
  unfold attempt_body, attempt_try, do_post.
  destruct (post req (calls st)) as [resp|e] eqn:Hp.
  - destruct (status_code resp =? 200)%Z eqn:Hs.
    + apply Z.eqb_eq in Hs.
      destruct (resp_json resp) as [result|e] eqn:Hj.
      * destruct (has_choices result) as [[]|e] eqn:Hc.
        -- destruct (first_content result) as [v'|e] eqn:Hv.
           ++ intros [= <- _]. right. exists resp, result. auto.
           ++ destruct e; try destruct (_ <? _); intros [= <- _]; left; reflexivity
              || discriminate.
        -- intros [= <- _]. left. reflexivity.
        -- destruct e; try destruct (_ <? _); intros [= <- _]; left; reflexivity
           || discriminate.
      * destruct e; try destruct (_ <? _); intros [= <- _]; left; reflexivity
        || discriminate.
    + destruct (status_code resp =? 401)%Z; [intros [= <- _]; left; reflexivity|].
      destruct (status_code resp =? 429)%Z; [discriminate|].
      intros [= <- _]. left. reflexivity.
  - destruct e; try destruct (_ <? _); intros [= <- _]; left; reflexivity
    || discriminate.
Qed.

Lemma retry_loop_return attempts : forall st v st',
  retry_loop post req attempts st = (Return v, st') ->
  v = py_None
  \/ exists n resp result,
       post req n = Ok resp /\ status_code resp = 200%Z
       /\ resp_json resp = Ok result /\ first_content result = Ok v.
Proof.
  induction attempts as [|a rest IH]; intros st v st' H; [discriminate|].
  cbn [retry_loop] in H.
  destruct (attempt_body post req a st) as [[v1| |e] st1] eqn:Ha.
  - injection H as <- _.
    destruct (attempt_body_return _ _ _ _ Ha) as [Hn | (resp & result & Hr)];
      [left; exact Hn | right; exists (calls st), resp, result; exact Hr].
  - exact (IH _ _ _ H).
  - discriminate.
Qed.

(** C4: when the first response has status 401, the call returns [None]
    after telling the user that the key is invalid, and [requests.post]
    was called exactly once: no retry, no sleep. *)
Theorem unauthorized_is_terminal st resp :
  post req (calls st) = Ok resp ->
  status_code resp = 401%Z ->
  call st = (Ok py_None,
             {| calls := S (calls st);
                log := log st ++ [Post req; StError InvalidApiKey] |})
  /\ posts [Post req; StError InvalidApiKey] = 1
  /\ sleeps [Post req; StError InvalidApiKey] = [].
Proof.
  intros Hp Hs. repeat split.
  enter_loop.
  rewrite (attempt_unauthorized post req 0 st resp Hp Hs).
  unfold emit, posted. cbn. rewrite <- app_assoc. reflexivity.
Qed.

(** C5: at most three calls of [requests.post]; on a 429 the attempt
    warns, sleeps [2 ^ attempt] and asks for the next attempt; 429, 429,
    then 200 with a usable body yields that body's content after sleeps of
    1 and 2; 429 three times ends with [None] after sleeps of 1, 2 and 4
    and three calls. *)
Theorem rate_limit_backoff :
  (forall st, calls (snd (call st)) <= calls st + 3)
  /\ (forall attempt st resp,
        post req (calls st) = Ok resp -> status_code resp = 429%Z ->
        attempt_body post req attempt st
        = (Continue,
           {| calls := S (calls st);
              log := log st ++ [Post req; StWarning (RateLimited (2 ^ attempt));
                                Sleep (2 ^ attempt)] |}))
  /\ (forall st r0 r1 r2 result v,
        post req (calls st) = Ok r0 -> status_code r0 = 429%Z ->
        post req (S (calls st)) = Ok r1 -> status_code r1 = 429%Z ->
        post req (S (S (calls st))) = Ok r2 -> status_code r2 = 200%Z ->
        resp_json r2 = Ok result ->
        has_choices result = Ok true -> first_content result = Ok v ->
        call st
        = (Ok v,
           {| calls := calls st + 3;
              log := log st ++ [Post req; StWarning (RateLimited 1); Sleep 1;
                                Post req; StWarning (RateLimited 2); Sleep 2;
                                Post req] |}))
  /\ (forall st r0 r1 r2,
        post req (calls st) = Ok r0 -> status_code r0 = 429%Z ->
        post req (S (calls st)) = Ok r1 -> status_code r1 = 429%Z ->
        post req (S (S (calls st))) = Ok r2 -> status_code r2 = 429%Z ->
        call st
        = (Ok py_None,
           {| calls := calls st + 3;
              log := log st ++ [Post req; StWarning (RateLimited 1); Sleep 1;
                                Post req; StWarning (RateLimited 2); Sleep 2;
                                Post req; StWarning (RateLimited 4); Sleep 4] |})).
Proof.
  split; [|split; [|split]].
  - intros st. unfold call, call_llm_api. fold req.
    pose proof (retry_loop_calls post req (seq 0 max_retries) st) as H.
    destruct (retry_loop post req (seq 0 max_retries) st) as [[v| |e] st1];
      cbn [snd length seq max_retries emit calls] in *; lia.
  - intros attempt st resp Hp Hs.
    rewrite (attempt_rate_limited post req attempt st resp Hp Hs).
    unfold emit, posted. cbn. rewrite <- app_assoc. reflexivity.
  - intros st r0 r1 r2 result v Hp0 Hs0 Hp1 Hs1 Hp2 Hs2 Hj Hc Hv.
    enter_loop.
    rewrite (attempt_rate_limited post req 0 st r0 Hp0 Hs0).
    set (st1 := emit _ (posted req st)).
    rewrite (attempt_rate_limited post req 1 st1 r1 Hp1 Hs1).
    set (st2 := emit _ (posted req st1)).
    rewrite (attempt_ok_content post req 2 st2 r2 result v Hp2 Hs2 Hj Hc Hv).
    subst st2 st1.
    unfold emit, posted. cbn. rewrite <- !app_assoc. cbn.
    replace (calls st + 3) with (S (S (S (calls st)))) by lia. reflexivity.
  - intros st r0 r1 r2 Hp0 Hs0 Hp1 Hs1 Hp2 Hs2.
    enter_loop.
    rewrite (attempt_rate_limited post req 0 st r0 Hp0 Hs0).
    set (st1 := emit _ (posted req st)).
    rewrite (attempt_rate_limited post req 1 st1 r1 Hp1 Hs1).
    set (st2 := emit _ (posted req st1)).
    rewrite (attempt_rate_limited post req 2 st2 r2 Hp2 Hs2).
    subst st2 st1.
    unfold emit, posted. cbn. rewrite <- !app_assoc. cbn.
    replace (calls st + 3) with (S (S (S (calls st)))) by lia. reflexivity.
Qed.

(** C6 (amended): when the first response has status 200 and its body
    parses, [requests.post] is called exactly once and nothing is slept,
    whatever the body.  The call returns [choices[0].message.content] when
    the body is an object whose [choices] is a non-empty array and whose
    first choice has [message.content]; it returns [None] with the error
    "Unexpected API response format" when [choices] is absent or an empty
    array; and when looking into the body raises, it returns [None] with
    the error "Unexpected error". *)
Theorem ok_response_is_terminal st resp result :
  post req (calls st) = Ok resp ->
  status_code resp = 200%Z ->
  resp_json resp = Ok result ->
  (exists v evs,
     call st = (Ok v, {| calls := S (calls st); log := log st ++ Post req :: evs |})
     /\ posts evs = 0 /\ sleeps evs = [])
  /\ (forall fields x xs xf mf v,
        result = JObj fields ->
        lookup_field "choices" fields = Some (JArr (x :: xs)) ->
        x = JObj xf ->
        lookup_field "message" xf = Some (JObj mf) ->
        lookup_field "content" mf = Some v ->
        call st = (Ok v, {| calls := S (calls st); log := log st ++ [Post req] |}))
  /\ (forall fields,
        result = JObj fields ->
        lookup_field "choices" fields = None
        \/ lookup_field "choices" fields = Some (JArr []) ->
        call st = (Ok py_None,
                   {| calls := S (calls st);
                      log := log st ++ [Post req; StError UnexpectedFormat] |}))
  /\ (forall e,
        has_choices result = Raise e
        \/ has_choices result = Ok true /\ first_content result = Raise e ->
        call st = (Ok py_None,
                   {| calls := S (calls st);
                      log := log st ++ [Post req; StError (UnexpectedError e)] |})).
Proof.
  intros Hp Hs Hj.
  assert (Hgood : forall v, has_choices result = Ok true ->
            first_content result = Ok v ->
            call st = (Ok v, {| calls := S (calls st); log := log st ++ [Post req] |})).
  { intros v Hc Hv. enter_loop.
    rewrite (attempt_ok_content post req 0 st resp result v Hp Hs Hj Hc Hv).
    reflexivity. }
  assert (Hnone : has_choices result = Ok false ->
            call st = (Ok py_None,
                       {| calls := S (calls st);
                          log := log st ++ [Post req; StError UnexpectedFormat] |})).
  { intros Hc. enter_loop.
    rewrite (attempt_ok_no_choices post req 0 st resp result Hp Hs Hj Hc).
    unfold emit, posted. cbn. rewrite <- app_assoc. reflexivity. }
  assert (Hraise : forall e, has_choices result = Raise e
              \/ has_choices result = Ok true /\ first_content result = Raise e ->
            call st = (Ok py_None,
                       {| calls := S (calls st);
                          log := log st ++ [Post req; StError (UnexpectedError e)] |})).
  { intros e He. enter_loop.
    rewrite (attempt_ok_raises post req 0 st resp result e Hp Hs Hj He).
    unfold emit, posted. cbn. rewrite <- app_assoc. reflexivity. }
  split; [|split; [|split]].
  - destruct (has_choices result) as [[]|e] eqn:Hc.
    + destruct (first_content result) as [v|e] eqn:Hv.
      * exists v, []. rewrite (Hgood v eq_refl eq_refl). auto.
      * exists py_None, [StError (UnexpectedError e)].
        rewrite (Hraise e (or_intror (conj eq_refl eq_refl))). auto.
    + exists py_None, [StError UnexpectedFormat]. rewrite (Hnone eq_refl). auto.
    + exists py_None, [StError (UnexpectedError e)].
      rewrite (Hraise e (or_introl eq_refl)). auto.
  - intros fields x xs xf mf v -> Hch Hx Hm Hcn. apply Hgood.
    + exact (has_choices_shape fields x xs Hch).
    + exact (first_content_shape fields x xs xf mf v Hch Hx Hm Hcn).
  - intros fields -> Hch. apply Hnone. exact (has_choices_absent fields Hch).
  - exact Hraise.
Qed.

(** C9: the call always returns a value, never an exception: [None], or
    the content of a body received with status 200.  In particular a body
    whose first choice lacks [message] or [content] gives [None], a
    response with an error status whose body does not parse gives [None]
    with the raw text as detail, and an exception raised by
    [requests.post] on every attempt gives [None]. *)
Theorem call_never_raises :
  (forall st, exists v st',
     call st = (Ok v, st')
     /\ (v = py_None
         \/ exists n resp result,
              post req n = Ok resp /\ status_code resp = 200%Z
              /\ resp_json resp = Ok result /\ first_content result = Ok v))
  /\ (forall st resp result e,
        post req (calls st) = Ok resp -> status_code resp = 200%Z ->
        resp_json resp = Ok result ->
        has_choices result = Ok true -> first_content result = Raise e ->
        fst (call st) = Ok py_None)
  /\ (forall st resp e,
        post req (calls st) = Ok resp ->
        status_code resp <> 200%Z -> status_code resp <> 401%Z ->
        status_code resp <> 429%Z ->
        resp_json resp = Raise e ->
        call st
        = (Ok py_None,
           {| calls := S (calls st);
              log := log st ++ [Post req;
                                StError (ApiError (status_code resp)
                                           (JStr (resp_text resp)))] |}))
  /\ (forall st e, (forall n, post req n = Raise e) -> fst (call st) = Ok py_None).
Proof.
  split; [|split; [|split]].
  - intros st. unfold call, call_llm_api. fold req.
    destruct (retry_loop post req (seq 0 max_retries) st) as [[v| |e] st1] eqn:Hl.
    + exists v, st1. split; [reflexivity|]. exact (retry_loop_return _ _ _ _ Hl).
    + exists py_None, st1. split; [reflexivity | left; reflexivity].
    + eexists py_None, _. split; [reflexivity | left; reflexivity].
  - intros st resp result e Hp Hs Hj Hc Hv.
    enter_loop.
    rewrite (attempt_ok_raises post req 0 st resp result e Hp Hs Hj
               (or_intror (conj Hc Hv))).
    reflexivity.
  - intros st resp e Hp H2 H4 H9 Hj.
    enter_loop.
    rewrite (attempt_other_status post req 0 st resp Hp H2 H4 H9).
    unfold error_detail. rewrite Hj. cbn.
    unfold emit, posted. cbn. rewrite <- app_assoc. reflexivity.
  - intros st e He. unfold call, call_llm_api. fold req.
    destruct (retry_loop post req (seq 0 max_retries) st) as [[v| |e'] st1] eqn:Hl;
      [|reflexivity|reflexivity].
    cbn [fst]. f_equal.
    destruct (retry_loop_return _ _ _ _ Hl) as [Hn | (n & resp & result & Hp & _)];
      [exact Hn|].
    rewrite He in Hp. discriminate.
Qed.

End ClientClaims.

Lemma unauthorized_is_terminal_witness :
  sample_call [Ok resp_unauthorized]
  = (Ok py_None,
     {| calls := 1; log := [Post sample_request; StError InvalidApiKey] |}).
Proof.
  exact (proj1 (unauthorized_is_terminal (scripted [Ok resp_unauthorized])
                  sample_messages "gsk_key" "llama-3.1-8b-instant"
                  (QArith_base.Qmake 1 10) 4000 state_init resp_unauthorized
                  eq_refl eq_refl)).
Defined.

Lemma rate_limit_backoff_witness :
  sample_call [Ok resp_rate_limited; Ok resp_rate_limited; Ok (resp_ok "Hi!")]
  = (Ok (JStr "Hi!"),
     {| calls := 3;
        log := [Post sample_request; StWarning (RateLimited 1); Sleep 1;
                Post sample_request; StWarning (RateLimited 2); Sleep 2;
                Post sample_request] |})
  /\ sample_call [Ok resp_rate_limited; Ok resp_rate_limited; Ok resp_rate_limited]
     = (Ok py_None,
        {| calls := 3;
           log := [Post sample_request; StWarning (RateLimited 1); Sleep 1;
                   Post sample_request; StWarning (RateLimited 2); Sleep 2;
                   Post sample_request; StWarning (RateLimited 4); Sleep 4] |}).
Proof.
  split.
  - destruct (rate_limit_backoff
                (scripted [Ok resp_rate_limited; Ok resp_rate_limited;
                           Ok (resp_ok "Hi!")])
                sample_messages "gsk_key" "llama-3.1-8b-instant"
                (QArith_base.Qmake 1 10) 4000) as (_ & _ & H & _).
    exact (H state_init resp_rate_limited resp_rate_limited (resp_ok "Hi!")
             _ (JStr "Hi!") eq_refl eq_refl eq_refl eq_refl eq_refl eq_refl
             eq_refl eq_refl eq_refl).
  - destruct (rate_limit_backoff
                (scripted [Ok resp_rate_limited; Ok resp_rate_limited;
                           Ok resp_rate_limited])
                sample_messages "gsk_key" "llama-3.1-8b-instant"
                (QArith_base.Qmake 1 10) 4000) as (_ & _ & _ & H).
    exact (H state_init resp_rate_limited resp_rate_limited resp_rate_limited
             eq_refl eq_refl eq_refl eq_refl eq_refl eq_refl).
Defined.

(** C6 (as stated) fails: status 200 and a body with a non-empty
    [choices] array whose first element has no [message]: the call returns
    [None], and the error shown is the one of the outer handler
    ("Unexpected error", for the [KeyError]), not "Unexpected API
    response format". *)
Lemma ok_without_message_is_no_result :
  resp_json resp_no_message = Ok (JObj [("choices", JArr [JObj [("index", JNum 0)]])])
  /\ sample_call [Ok resp_no_message]
     = (Ok py_None,
        {| calls := 1;
           log := [Post sample_request;
                   StError (UnexpectedError (PyError "KeyError" "message"))] |}).
Proof. split; reflexivity. Qed.

Lemma ok_response_is_terminal_witness :
  sample_call [Ok (resp_ok "Hi!")]
  = (Ok (JStr "Hi!"), {| calls := 1; log := [Post sample_request] |}).
Proof.
  destruct (ok_response_is_terminal (scripted [Ok (resp_ok "Hi!")])
              sample_messages "gsk_key" "llama-3.1-8b-instant"
              (QArith_base.Qmake 1 10) 4000 state_init (resp_ok "Hi!") _
              eq_refl eq_refl eq_refl) as (_ & H & _).
  exact (H _ _ _ _ _ (JStr "Hi!") eq_refl eq_refl eq_refl eq_refl eq_refl).
Defined.

Lemma call_never_raises_witness :
  fst (sample_call [Ok resp_no_message]) = Ok py_None
  /\ sample_call [Ok resp_bad_gateway]
     = (Ok py_None,
        {| calls := 1;
           log := [Post sample_request;
                   StError (ApiError 502 (JStr "Bad Gateway"))] |})
  /\ fst (sample_call []) = Ok py_None.
Proof.
  split; [|split].
  - destruct (call_never_raises (scripted [Ok resp_no_message])
                sample_messages "gsk_key" "llama-3.1-8b-instant"
                (QArith_base.Qmake 1 10) 4000) as (_ & H & _).
    exact (H state_init resp_no_message _ (PyError "KeyError" "message")
             eq_refl eq_refl eq_refl eq_refl eq_refl).
  - destruct (call_never_raises (scripted [Ok resp_bad_gateway])
                sample_messages "gsk_key" "llama-3.1-8b-instant"
                (QArith_base.Qmake 1 10) 4000) as (_ & _ & H & _).
    refine (H state_init resp_bad_gateway (RequestException "Expecting value")
              eq_refl _ _ _ eq_refl); discriminate.
  - destruct (call_never_raises (scripted [])
                sample_messages "gsk_key" "llama-3.1-8b-instant"
                (QArith_base.Qmake 1 10) 4000) as (_ & _ & _ & H).
    apply (H state_init Timeout). intros [|[|n]]; reflexivity.
Defined.

(** ** The request of a chat turn *)




(** ** Snippet runner *)

Import Runner.

Lemma registry_python :
  registry_get "python" SUPPORTED_LANGUAGES
  = Some {| extension := ".py"; runner := "python" |}.
Proof. reflexivity. Qed.

Lemma registry_javascript :
  registry_get "javascript" SUPPORTED_LANGUAGES
  = Some {| extension := ".js"; runner := "node" |}.
Proof. reflexivity. Qed.

(** The normal path does clean up: a child that ends by itself, whatever
    its exit code, is followed by the [unlink] of the file. *)
Lemma run_python_completed e code w rc out err :
  create_raises e = None -> write_raises e = None ->
  subprocess_run e [sys_executable e; tmp_stem e +:+ ".py"] = Completed rc out err ->
  run_code e code "python" w
  = ((if (rc =? 0)%Z then (true, out) else (false, err)),
     {| files := delete (tmp_stem e +:+ ".py")
                   (<[tmp_stem e +:+ ".py" := code]>
                      (<[tmp_stem e +:+ ".py" := ""]> (files w)));
        ops := (ops w ++ [Created (tmp_stem e +:+ ".py")])
               ++ [Unlinked (tmp_stem e +:+ ".py")] |}).
Proof.
  intros Hc Hw Hr. unfold run_code. rewrite registry_python, Hc, Hw.
  cbn [extension String.eqb Ascii.eqb]. cbn. rewrite Hr. cbn.
  destruct (rc =? 0)%Z; reflexivity.
Qed.

Lemma run_python_completed_clean e code w rc out err :
  create_raises e = None -> write_raises e = None ->
  subprocess_run e [sys_executable e; tmp_stem e +:+ ".py"] = Completed rc out err ->
  files (snd (run_code e code "python" w)) !! (tmp_stem e +:+ ".py") = None.
Proof.
  intros Hc Hw Hr. rewrite (run_python_completed e code w rc out err Hc Hw Hr).
  cbn [snd files]. apply lookup_delete_eq.
Qed.

(** C1: the property fails on the code.  When the child process exceeds
    the deadline, [run_code] answers "Code execution timed out"; the
    temporary file has been created and written, no [unlink] follows, and
    the file is still on disk when [run_code] returns. *)
Theorem timeout_leaves_temp_file e code w :
  create_raises e = None -> write_raises e = None ->
  subprocess_run e [sys_executable e; tmp_stem e +:+ ".py"] = TimeoutExpired ->
  fst (run_code e code "python" w) = (false, timed_out)
  /\ ops (snd (run_code e code "python" w))
     = ops w ++ [Created (tmp_stem e +:+ ".py")]
  /\ files (snd (run_code e code "python" w)) !! (tmp_stem e +:+ ".py")
     = Some code.
Proof.
  intros Hc Hw Hr. unfold run_code. rewrite registry_python, Hc, Hw.
  cbn [extension]. cbn. rewrite Hr. cbn.
  repeat split. apply lookup_insert_eq.
Qed.

Lemma timeout_leaves_temp_file_witness :
  let r := run_code (sample_env TimeoutExpired) "while True: pass" "python"
             world_init in
  fst r = (false, "Code execution timed out")
  /\ ops (snd r) = [Created "/tmp/tmpk3x9w2.py"]
  /\ files (snd r) !! "/tmp/tmpk3x9w2.py" = Some "while True: pass".
Proof.
  exact (timeout_leaves_temp_file (sample_env TimeoutExpired) "while True: pass"
           world_init eq_refl eq_refl eq_refl).
Defined.




(** * Further properties *)

(** ** The extractor on arbitrary text *)

Lemma has_fence_spec s : has_fence s = true -> exists a b, s = a ++ fence ++ b.
Proof.
  induction s as [|c s IH]; intros H; [discriminate|].
  cbn [has_fence] in H. apply orb_true_iff in H as [H | H].
  - apply starts_with_inv in H as [r ->]. exists [], r. reflexivity.
  - destruct (IH H) as (a & b & ->). exists (c :: a), b. reflexivity.
Qed.

Lemma has_fence_app_l a b : has_fence (a ++ b) = false -> has_fence a = false.
Proof.
  intros H. destruct (has_fence a) eqn:E; [|reflexivity].
  apply has_fence_spec in E as (x & y & ->).
  rewrite <- !app_assoc, has_fence_intro in H. discriminate.
Qed.

Lemma has_fence_inside p s q : has_fence (p ++ s ++ q) = false -> has_fence s = false.
Proof.
  intros H. destruct (has_fence s) eqn:E; [|reflexivity].
  apply has_fence_spec in E as (x & y & ->).
  replace (p ++ (x ++ fence ++ y) ++ q) with ((p ++ x) ++ fence ++ (y ++ q)) in H
    by (rewrite <- !app_assoc; reflexivity).
  rewrite has_fence_intro in H. discriminate.
Qed.

Lemma has_newline_app a b : has_newline (a ++ b) = has_newline a || has_newline b.
Proof.
  induction a as [|c a IH]; [reflexivity|].
  cbn [app has_newline]. rewrite IH, orb_assoc. reflexivity.
Qed.

Lemma word_run_split s : s = word_run s ++ drop_while is_word s.
Proof.
  induction s as [|c s IH]; [reflexivity|].
  cbn [word_run drop_while]. destruct (is_word c); [|reflexivity].
  cbn [app]. f_equal. exact IH.
Qed.

(** The lazy body ends at the first fence: the body with the first two
    backticks of the closing fence still holds no fence. *)
Lemma lazy_body_sound s : forall b r,
  lazy_body s = Some (b, r) ->
  s = b ++ fence ++ r /\ has_fence (b ++ [backtick; backtick]) = false.
Proof.
  induction s as [|c s IH]; intros b r H.
  - cbn in H. discriminate.
  - cbn [lazy_body] in H. destruct (starts_with fence (c :: s)) eqn:Hs.
    + apply starts_with_inv in Hs as [x Hx]. rewrite Hx in H |- *.
      change (skipn 3 (fence ++ x)) with x in H.
      injection H as <- <-. split; reflexivity.
    + destruct (lazy_body s) as [[b' r']|] eqn:Hl; [|discriminate].
      injection H as <- <-. destruct (IH _ _ eq_refl) as [-> Hf].
      split; [reflexivity|].
      change ((c :: b') ++ [backtick; backtick])
        with (c :: (b' ++ [backtick; backtick])).
      cbn [has_fence]. rewrite Hf, orb_false_r.
      destruct b' as [|x [|y b']]; exact Hs.
Qed.

Lemma match_at_sound s tag b rest :
  match_at s = Some (tag, b, rest) ->
  s = block_text (tag, b) ++ rest
  /\ tag = word_run (skipn 3 s)
  /\ has_fence (b ++ [backtick; backtick]) = false.
Proof.
  rewrite match_at_direct. unfold match_direct.
  destruct (starts_with fence s) eqn:Hs; [|discriminate].
  apply starts_with_inv in Hs as [x ->].
  change (skipn 3 (fence ++ x)) with x.
  pose proof (word_run_split x) as Hx.
  destruct (drop_while is_word x) as [|c r] eqn:Hd; [discriminate|].
  destruct (Ascii.eqb_spec c newline) as [->|]; [|discriminate].
  destruct (lazy_body r) as [[b' rest']|] eqn:Hl; [|discriminate].
  intros [= <- <- <-]. destruct (lazy_body_sound _ _ _ Hl) as [-> Hf].
  split; [|split; [reflexivity | exact Hf]].
  unfold block_text. cbn [fst snd]. rewrite Hx at 1.
  rewrite <- !app_assoc. cbn [app]. rewrite <- !app_assoc. reflexivity.
Qed.

Lemma findall_cons_match c s tag b rest :
  match_at (c :: s) = Some (tag, b, rest) ->
  findall (c :: s) = (tag, b) :: findall rest.
Proof.
  intros H. destruct (match_at_sound _ _ _ _ H) as (Hs & _ & _).
  assert (Hp : exists p, s = p ++ rest).
  { exists ([backtick; backtick] ++ tag ++ newline :: b ++ fence).
    unfold block_text in Hs. cbn [fst snd fence app] in Hs.
    injection Hs as _ ->. cbn [app]. rewrite <- !app_assoc. cbn [app].
    rewrite <- !app_assoc. reflexivity. }
  destruct Hp as [p ->]. apply findall_match. exact H.
Qed.

Lemma found_in_order_cons c s ms : found_in_order s ms -> found_in_order (c :: s) ms.
Proof.
  intros H. destruct H as [s | pre m rest ms H]; [constructor|].
  change (c :: pre ++ block_text m ++ rest) with ((c :: pre) ++ block_text m ++ rest).
  constructor. exact H.
Qed.

Lemma findall_found_fuel n : forall s, length s <= n -> found_in_order s (findall s).
Proof.
  induction n as [|n IH]; intros s Hn.
  - destruct s; [constructor | cbn in Hn; lia].
  - destruct s as [|c s]; [constructor|].
    destruct (match_at (c :: s)) as [[[tag b] rest]|] eqn:Hm.
    + rewrite (findall_cons_match _ _ _ _ _ Hm).
      destruct (match_at_sound _ _ _ _ Hm) as (Hs & _ & _). rewrite Hs.
      apply (found_next [] (tag, b) rest). apply IH.
      apply (f_equal (@length ascii)) in Hs.
      rewrite length_app in Hs. unfold block_text in Hs.
      rewrite length_app in Hs. cbn in Hs, Hn. lia.
    + rewrite (findall_no_match _ _ Hm). apply found_in_order_cons, IH.
      cbn in Hn. lia.
Qed.

Lemma found_in_order_length s ms : found_in_order s ms -> 7 * length ms <= length s.
Proof.
  induction 1 as [s | pre m rest ms H IH]; [cbn; lia|].
  unfold block_text. rewrite !length_app. cbn [length].
  rewrite !length_app. cbn [length fence]. lia.
Qed.

(** X1: whatever the text, the blocks extracted are matches that really
    occur in it, in the order of the text and without overlap (each is an
    opening fence, a tag, a newline, a body and a closing fence); so a
    text of [n] characters yields at most [n / 7] blocks. *)
Theorem extracted_blocks_occur_in_order (txt : text) :
  exists ms,
    extract_code_blocks txt = map block_of_match ms
    /\ found_in_order txt ms
    /\ 7 * length (extract_code_blocks txt) <= length txt.
Proof.
  exists (findall txt).
  pose proof (findall_found_fuel (length txt) txt (le_n _)) as H.
  split; [reflexivity|]. split; [exact H|].
  unfold extract_code_blocks. rewrite length_map.
  apply found_in_order_length. exact H.
Qed.

Lemma findall_from_bodies s : forall k m,
  In m (findall_from k s) -> has_fence (snd m) = false.
Proof.
  induction s as [|c s IH]; intros k m Hm; [destruct Hm|].
  cbn [findall_from] in Hm. destruct k as [|k]; [|exact (IH _ _ Hm)].
  destruct (match_at (c :: s)) as [[[tag b] rest]|] eqn:E; [|exact (IH _ _ Hm)].
  destruct Hm as [<- | Hm]; [|exact (IH _ _ Hm)].
  destruct (match_at_sound _ _ _ _ E) as (_ & _ & Hf).
  exact (has_fence_app_l _ _ Hf).
Qed.

Lemma drop_while_idem f s : drop_while f (drop_while f s) = drop_while f s.
Proof.
  induction s as [|c s IH]; [reflexivity|].
  cbn [drop_while]. destruct (f c) eqn:E; [exact IH|].
  cbn [drop_while]. rewrite E. reflexivity.
Qed.

Lemma rstrip_idem s : rstrip (rstrip s) = rstrip s.
Proof. unfold rstrip. rewrite rev_involutive, drop_while_idem. reflexivity. Qed.

Lemma rstrip_keeps_head c s :
  is_space c = false -> exists t, rstrip (c :: s) = c :: t.
Proof.
  intros Hc. unfold rstrip. cbn [rev].
  rewrite (drop_while_app_stop is_space (rev s) c [] Hc), rev_app_distr.
  eexists. reflexivity.
Qed.

Lemma lstrip_head s : lstrip s = [] \/ exists c t, lstrip s = c :: t /\ is_space c = false.
Proof.
  unfold lstrip. induction s as [|c s IH]; [left; reflexivity|].
  cbn [drop_while]. destruct (is_space c) eqn:E; [exact IH|].
  right. exists c, s. split; [reflexivity | exact E].
Qed.

Lemma lstrip_strip s : lstrip (strip s) = strip s.
Proof.
  unfold strip. destruct (lstrip_head s) as [-> | (c & t & -> & Hc)]; [reflexivity|].
  destruct (rstrip_keeps_head c t Hc) as [u ->].
  unfold lstrip. cbn [drop_while]. rewrite Hc. reflexivity.
Qed.

Lemma rstrip_strip s : rstrip (strip s) = strip s.
Proof. unfold strip. apply rstrip_idem. Qed.

Lemma strip_idem s : strip (strip s) = strip s.
Proof. unfold strip at 1. rewrite lstrip_strip. apply rstrip_strip. Qed.

Lemma has_fence_strip s : has_fence s = false -> has_fence (strip s) = false.
Proof.
  intros H. destruct (strip_inside s) as (p & q & Hs). rewrite Hs in H.
  exact (has_fence_inside _ _ _ H).
Qed.

(** X2: the code of every extracted block is trimmed (stripping it again,
    on either side, changes nothing) and holds no triple backtick: the
    body of a match ends at the first fence after the opening line. *)
Theorem extracted_code_is_trimmed (txt : text) (b : code_block) :
  In b (extract_code_blocks txt) ->
  lstrip (code b) = code b
  /\ rstrip (code b) = code b
  /\ strip (code b) = code b
  /\ has_fence (code b) = false.
Proof.
  intros Hb. unfold extract_code_blocks in Hb.
  apply in_map_iff in Hb as (m & <- & Hm).
  pose proof (findall_from_bodies txt 0 m Hm) as Hf.
  unfold block_of_match. cbn [code].
  repeat split.
  - apply lstrip_strip.
  - apply rstrip_strip.
  - apply strip_idem.
  - apply has_fence_strip. exact Hf.
Qed.

Lemma extracted_code_is_trimmed_witness :
  let b := {| language := T "py"; code := T "x = 1" |} in
  lstrip (code b) = code b /\ rstrip (code b) = code b
  /\ strip (code b) = code b /\ has_fence (code b) = false.
Proof.
  apply (extracted_code_is_trimmed (T "see:
```py

   x = 1

```
")).
  vm_compute. left. reflexivity.
Defined.

Lemma match_at_needs_newline s : has_newline s = false -> match_at s = None.
Proof.
  intros Hn. destruct (match_at s) as [[[tag b] rest]|] eqn:E; [|reflexivity].
  destruct (match_at_sound _ _ _ _ E) as (Hs & _ & _).
  rewrite Hs in Hn. unfold block_text in Hn. cbn [fst snd] in Hn.
  rewrite <- !app_assoc in Hn.
  rewrite (has_newline_app fence), (has_newline_app tag) in Hn.
  cbn [app has_newline] in Hn. rewrite Ascii.eqb_refl in Hn.
  cbn in Hn. rewrite orb_true_r in Hn. discriminate.
Qed.

Lemma findall_from_needs_newline s : forall k,
  has_newline s = false -> findall_from k s = [].
Proof.
  induction s as [|c s IH]; intros k Hn; [reflexivity|].
  cbn [findall_from]. pose proof Hn as Hn'.
  cbn [has_newline] in Hn'. apply orb_false_iff in Hn' as [_ Hs].
  destruct k as [|k]; [|exact (IH _ Hs)].
  rewrite (match_at_needs_newline _ Hn). exact (IH _ Hs).
Qed.

(** X3: a text on a single line yields no block, whatever fences it
    holds: the pattern wants a newline right after the opening fence and
    its tag, so inline code such as [```x = 1```] is never extracted. *)
Theorem single_line_has_no_block (txt : text) :
  has_newline txt = false -> extract_code_blocks txt = [].
Proof.
  intros H. unfold extract_code_blocks, findall.
  rewrite (findall_from_needs_newline txt 0 H). reflexivity.
Qed.

Lemma single_line_has_no_block_witness :
  extract_code_blocks (T "run ```x = 1``` or ```py print(1)```") = [].
Proof. apply single_line_has_no_block. reflexivity. Defined.

(** ** The line pass on arbitrary text *)

Lemma split_lines_nonempty s : split_lines s <> [].
Proof.
  destruct s as [|c s]; cbn [split_lines]; [discriminate|].
  destruct (Ascii.eqb c newline); [discriminate|].
  destruct (split_lines s); discriminate.
Qed.

Lemma join_lines_cons_char c l ls : join_lines ((c :: l) :: ls) = c :: join_lines (l :: ls).
Proof. destruct ls; reflexivity. Qed.

Lemma join_split s : join_lines (split_lines s) = s.
Proof.
  induction s as [|c s IH]; [reflexivity|].
  cbn [split_lines]. pose proof (split_lines_nonempty s) as Hne.
  destruct (split_lines s) as [|l ls]; [contradiction|].
  destruct (Ascii.eqb_spec c newline) as [->|].
  - change (join_lines ([] :: l :: ls)) with (newline :: join_lines (l :: ls)).
    rewrite IH. reflexivity.
  - rewrite join_lines_cons_char. f_equal. exact IH.
Qed.

Lemma split_lines_no_newline s :
  forallb (fun x => negb (has_newline x)) (split_lines s) = true.
Proof.
  induction s as [|c s IH]; [reflexivity|].
  cbn [split_lines]. destruct (Ascii.eqb c newline) eqn:E.
  - cbn [forallb has_newline negb andb]. exact IH.
  - destruct (split_lines s) as [|l ls]; [cbn; rewrite E; reflexivity|].
    cbn [forallb has_newline] in *. rewrite E. exact IH.
Qed.

Lemma partition_go_prose lines : forall flag acc ls,
  forallb (fun x => negb (has_newline x)) lines = true ->
  forallb prose_line acc = true ->
  In ls (prose_parts (partition_go flag acc lines)) ->
  ls <> [] /\ forallb prose_line ls = true.
Proof.
  induction lines as [|l lines IH]; intros flag acc ls Hn Hacc Hin.
  - cbn [partition_go] in Hin. destruct flag; [destruct Hin|].
    destruct acc as [|a acc]; [destruct Hin|].
    destruct Hin as [<- | []]. split; [discriminate | exact Hacc].
  - cbn [forallb] in Hn. apply andb_true_iff in Hn as [Hl Hn].
    cbn [partition_go] in Hin. destruct (is_fence_line l) eqn:Hf.
    + destruct flag.
      * exact (IH false [] ls Hn eq_refl Hin).
      * destruct acc as [|a acc]; cbn [nonempty prose_parts] in Hin.
        -- exact (IH true [] ls Hn eq_refl Hin).
        -- destruct Hin as [<- | Hin]; [split; [discriminate | exact Hacc]|].
           exact (IH true [] ls Hn eq_refl Hin).
    + apply (IH flag (acc ++ [l]) ls Hn); [|exact Hin].
      rewrite forallb_app, Hacc. cbn. unfold prose_line. rewrite Hf, Hl. reflexivity.
Qed.

(** X4: no line that the pass takes for a fence is ever handed to
    [st.markdown] as prose: every rendered unit splits back into lines
    none of which starts, once trimmed, with a triple backtick. *)
Theorem rendered_prose_has_no_fence_line (content unit line : text) :
  In unit (display_prose content) ->
  In line (split_lines unit) ->
  is_fence_line line = false.
Proof.
  intros Hu Hl. rewrite display_prose_partition in Hu.
  apply in_map_iff in Hu as (ls & <- & Hls).
  destruct (partition_go_prose (split_lines content) false [] ls
              (split_lines_no_newline content) eq_refl Hls) as [Hne Hp].
  destruct ls as [|l0 ls]; [contradiction|].
  rewrite split_join in Hl.
  - rewrite forallb_forall in Hp. specialize (Hp line Hl).
    unfold prose_line in Hp. apply andb_true_iff in Hp as [Hp _].
    apply negb_true_iff in Hp. exact Hp.
  - apply forallb_forall. intros x Hx. rewrite forallb_forall in Hp.
    specialize (Hp x Hx). unfold prose_line in Hp.
    apply andb_true_iff in Hp as [_ Hp]. exact Hp.
Qed.

Lemma rendered_prose_has_no_fence_line_witness :
  is_fence_line (T "after") = false.
Proof.
  apply (rendered_prose_has_no_fence_line (T "before
```py
x = 1
```
after") (T "after")).
  - vm_compute. right. left. reflexivity.
  - vm_compute. left. reflexivity.
Defined.

Lemma line_step_not_fence st l :
  is_fence_line l = false -> in_code_block (line_step st l) = in_code_block st.
Proof.
  intros H. unfold line_step. rewrite H.
  destruct (in_code_block st) eqn:E; cbn; [exact E | reflexivity].
Qed.

Lemma fold_flag_parity lines : forall st,
  in_code_block (fold_left line_step lines st)
  = xorb (in_code_block st) (Nat.odd (count_fence_lines lines)).
Proof.
  induction lines as [|l lines IH]; intros st.
  - cbn. rewrite xorb_false_r. reflexivity.
  - cbn [fold_left count_fence_lines]. rewrite IH.
    destruct (is_fence_line l) eqn:Hf.
    + rewrite (line_step_fence _ _ Hf), Nat.odd_succ, <- Nat.negb_odd.
      destruct (in_code_block st), (Nat.odd (count_fence_lines lines)); reflexivity.
    + rewrite (line_step_not_fence _ _ Hf). reflexivity.
Qed.

(** X5: when the pass ends, its in-block flag is the parity of the number
    of fence lines: every fence is closed exactly when the content has an
    even number of lines that start, once trimmed, with a triple
    backtick. *)
Theorem flag_is_parity_of_fence_lines (content : text) :
  in_code_block (line_pass content)
  = Nat.odd (count_fence_lines (split_lines content))
  /\ fences_terminated content
     = Nat.even (count_fence_lines (split_lines content)).
Proof.
  unfold fences_terminated, line_pass. rewrite fold_flag_parity.
  cbn [in_code_block pass_init xorb]. split; [reflexivity|].
  apply Nat.negb_odd.
Qed.

Lemma partition_go_no_fence lines : forall acc,
  count_fence_lines lines = 0 ->
  partition_go false acc lines
  = if nonempty (acc ++ lines) then [PProse (acc ++ lines)] else [].
Proof.
  induction lines as [|l lines IH]; intros acc H.
  - cbn [partition_go]. rewrite app_nil_r. reflexivity.
  - cbn [count_fence_lines] in H. cbn [partition_go].
    destruct (is_fence_line l); [discriminate|].
    rewrite (IH _ H), <- app_assoc. reflexivity.
Qed.

(** X6: a content without any fence line goes to [st.markdown] unchanged
    and in one piece. *)
Theorem content_without_fence_is_rendered_whole (content : text) :
  count_fence_lines (split_lines content) = 0 ->
  display_prose content = [content].
Proof.
  intros H. rewrite display_prose_partition. unfold partition_lines.
  rewrite (partition_go_no_fence _ [] H). cbn [app].
  pose proof (split_lines_nonempty content) as Hne.
  pose proof (join_split content) as Hj.
  destruct (split_lines content) as [|l ls]; [contradiction|].
  cbn [nonempty prose_parts map]. rewrite Hj. reflexivity.
Qed.

Lemma content_without_fence_is_rendered_whole_witness :
  display_prose (T "Use `x` here.

Then ``` appears mid-line.") = [T "Use `x` here.

Then ``` appears mid-line."].
Proof. apply content_without_fence_is_rendered_whole. reflexivity. Defined.

(** ** The completion client: retries, bounds and error details *)

Lemma posts_app a b : posts (a ++ b) = posts a + posts b.
Proof.
  induction a as [|ev a IH]; [reflexivity|].
  destruct ev; cbn [app posts]; rewrite IH; reflexivity.
Qed.

Lemma sleeps_app a b : sleeps (a ++ b) = sleeps a ++ sleeps b.
Proof.
  induction a as [|ev a IH]; [reflexivity|].
  destruct ev; cbn [app sleeps]; rewrite IH; reflexivity.
Qed.

Lemma is_continue_true c : is_continue c = true -> c = Continue.
Proof. destruct c; [discriminate | reflexivity | discriminate]. Qed.

Section ClientRetries.

Variable post : request -> nat -> outcome response.
Variables (msgs : list api_message) (api_key model : string).
Variables (temperature : QArith_base.Q) (max_tokens : Z).

Let req := build_request msgs api_key model temperature max_tokens.
Let call := call_llm_api post msgs api_key model temperature max_tokens.

Ltac open_call :=
  unfold call, call_llm_api; fold req; cbn [seq max_retries retry_loop].

Lemma attempt_continue_transient (attempt : nat) (st : state) :
  is_continue (fst (attempt_body post req attempt st))
  = transient attempt (post req (calls st)).
Proof.
  unfold attempt_body, attempt_try, do_post, transient.
  destruct (post req (calls st)) as [resp|e].
  - destruct (status_code resp =? 200)%Z eqn:H200.
    + apply Z.eqb_eq in H200. rewrite H200. cbn [Z.eqb Pos.eqb orb andb].
      destruct (resp_json resp) as [result|e].
      * destruct (has_choices result) as [[]|e] eqn:Hc.
        -- destruct (first_content result) as [v|e] eqn:Hv; [reflexivity|].
           destruct (first_content_error _ _ Hv) as (cls & m & ->). reflexivity.
        -- reflexivity.
        -- destruct (has_choices_error _ _ Hc) as (cls & m & ->). reflexivity.
      * destruct e; cbn [is_request_exn andb];
          try destruct (attempt <? max_retries - 1); reflexivity.
    + cbn [andb]. rewrite orb_false_r.
      destruct (status_code resp =? 401)%Z eqn:H401.
      * apply Z.eqb_eq in H401. rewrite H401. reflexivity.
      * destruct (status_code resp =? 429)%Z; reflexivity.
  - destruct e; cbn [is_request_exn andb];
      try destruct (attempt <? max_retries - 1); reflexivity.
Qed.


Lemma transient_continues attempt st :
  transient attempt (post req (calls st)) = true ->
  exists st', attempt_body post req attempt st = (Continue, st')
              /\ calls st' = S (calls st).
Proof.
  intros H. rewrite <- attempt_continue_transient in H.
  pose proof (attempt_body_calls post req attempt st) as Hc.
  destruct (attempt_body post req attempt st) as [c st'].
  cbn [fst snd] in *. apply is_continue_true in H. subst c.
  exists st'. split; [reflexivity | exact Hc].
Qed.

(** X8: transient outcomes on the first [k] attempts ([k] at most 2)
    followed by a status 200 with a usable body give that body's content,
    after [k + 1] calls of [requests.post]. *)
Theorem transient_then_ok (k : nat) (st : state) (resp : response)
    (result v : json) :
  k <= 2 ->
  (forall i, i < k -> transient i (post req (calls st + i)) = true) ->
  post req (calls st + k) = Ok resp ->
  status_code resp = 200%Z ->
  resp_json resp = Ok result ->
  has_choices result = Ok true ->
  first_content result = Ok v ->
  fst (call st) = Ok v /\ calls (snd (call st)) = calls st + k + 1.
Proof.
  intros Hk Ht Hp Hs Hj Hc Hv.
  assert (Hgo : forall a st0, calls st0 = calls st + k ->
            attempt_body post req a st0 = (Return v, posted req st0)).
  { intros a st0 E. apply (attempt_ok_content post req a st0 resp result v);
      try assumption. rewrite E. exact Hp. }
  destruct k as [|[|[|k]]]; [| | |lia]; open_call.
  - rewrite (Hgo 0 st) by lia. cbn. split; [reflexivity | lia].
  - destruct (transient_continues 0 st) as (st1 & -> & E1).
    { rewrite <- (Nat.add_0_r (calls st)). apply Ht. lia. }
    rewrite (Hgo 1 st1) by lia. cbn. split; [reflexivity | lia].
  - destruct (transient_continues 0 st) as (st1 & -> & E1).
    { rewrite <- (Nat.add_0_r (calls st)). apply Ht. lia. }
    destruct (transient_continues 1 st1) as (st2 & -> & E2).
    { rewrite E1. replace (S (calls st)) with (calls st + 1) by lia.
      apply Ht. lia. }
    rewrite (Hgo 2 st2) by lia. cbn. split; [reflexivity | lia].
Qed.

Lemma attempt_body_events attempt st :
  exists evs,
    log (snd (attempt_body post req attempt st)) = log st ++ Post req :: evs
    /\ posts evs = 0
    /\ list_sum (sleeps evs) <= 2 ^ attempt
    /\ posts_carry req evs.
Proof.
  assert (Hpow : 1 <= 2 ^ attempt).
  { pose proof (Nat.pow_nonzero 2 attempt). lia. }
  assert (Hdone : forall (c : ctl) st1 evs,
            log st1 = log st ++ Post req :: evs ->
            posts evs = 0 -> list_sum (sleeps evs) <= 2 ^ attempt ->
            posts_carry req evs ->
            exists evs0,
              log (snd (c, st1)) = log st ++ Post req :: evs0
              /\ posts evs0 = 0
              /\ list_sum (sleeps evs0) <= 2 ^ attempt
              /\ posts_carry req evs0).
  { intros c st1 evs H1 H2 H3 H4. exists evs. auto. }
  assert (Hposted : log (posted req st) = log st ++ Post req :: []) by reflexivity.
  assert (Hemit : forall evs,
            log (emit evs (posted req st)) = log st ++ Post req :: evs).
  { intros evs. cbn. rewrite <- app_assoc. reflexivity. }
  unfold attempt_body, attempt_try, do_post.
  fold (posted req st).
  destruct (post req (calls st)) as [resp|e].
  - destruct (status_code resp =? 200)%Z.
    + destruct (resp_json resp) as [result|e].
      * destruct (has_choices result) as [[]|e] eqn:Hc.
        -- destruct (first_content result) as [v|e] eqn:Hv.
           ++ apply (Hdone _ _ [] Hposted); [reflexivity | cbn; lia | constructor].
           ++ destruct (first_content_error _ _ Hv) as (cls & m & ->).
              apply (Hdone _ _ [] Hposted); [reflexivity | cbn; lia | constructor].
        -- apply (Hdone _ _ _ (Hemit _)); [reflexivity | cbn; lia | repeat constructor].
        -- destruct (has_choices_error _ _ Hc) as (cls & m & ->).
           apply (Hdone _ _ [] Hposted); [reflexivity | cbn; lia | constructor].
      * destruct e; try destruct (attempt <? max_retries - 1);
          first [ apply (Hdone _ _ _ (Hemit _));
                  [reflexivity | cbn; lia | repeat constructor]
                | apply (Hdone _ _ [] Hposted);
                  [reflexivity | cbn; lia | constructor] ].
    + destruct (status_code resp =? 401)%Z;
        [|destruct (status_code resp =? 429)%Z];
        apply (Hdone _ _ _ (Hemit _));
        first [reflexivity | cbn; lia | repeat constructor].
  - destruct e; try destruct (attempt <? max_retries - 1);
      first [ apply (Hdone _ _ _ (Hemit _));
              [reflexivity | cbn; lia | repeat constructor]
            | apply (Hdone _ _ [] Hposted);
              [reflexivity | cbn; lia | constructor] ].
Qed.

Lemma posts_carry_app evs1 evs2 :
  posts_carry req evs1 -> posts_carry req evs2 -> posts_carry req (evs1 ++ evs2).
Proof. unfold posts_carry. intros H1 H2. apply Forall_app. split; assumption. Qed.

Ltac conjuncts :=
  repeat match goal with |- _ /\ _ => split end;
  try assumption; try reflexivity; try lia;
  try (cbn [list_sum fold_right] in *; lia).

Lemma retry_loop_events attempts : forall st,
  exists evs,
    log (snd (retry_loop post req attempts st)) = log st ++ evs
    /\ calls (snd (retry_loop post req attempts st)) = calls st + posts evs
    /\ Nat.min 1 (length attempts) <= posts evs <= length attempts
    /\ list_sum (sleeps evs) <= list_sum (map (Nat.pow 2) attempts)
    /\ posts_carry req evs.
Proof.
  induction attempts as [|a rest IH]; intros st.
  - exists []. cbn. rewrite app_nil_r. conjuncts. constructor.
  - cbn [retry_loop].
    destruct (attempt_body_events a st) as (evs & Hl & Hp & Hs & Hc).
    pose proof (attempt_body_calls post req a st) as Hn.
    assert (Hc1 : posts_carry req (Post req :: evs))
      by (constructor; [reflexivity | exact Hc]).
    assert (Hhere :
      log (snd (attempt_body post req a st)) = log st ++ Post req :: evs
      /\ calls (snd (attempt_body post req a st)) = calls st + posts (Post req :: evs)
      /\ Nat.min 1 (length (a :: rest)) <= posts (Post req :: evs)
         <= length (a :: rest)
      /\ list_sum (sleeps (Post req :: evs))
         <= list_sum (map (Nat.pow 2) (a :: rest))
      /\ posts_carry req (Post req :: evs)).
    { cbn [posts sleeps length map list_sum]. rewrite Hp. conjuncts. }
    destruct (attempt_body post req a st) as [[v| |e] st1]; cbn [snd] in *;
      [exists (Post req :: evs); exact Hhere | | exists (Post req :: evs); exact Hhere].
    destruct (IH st1) as (evs' & Hl' & Hn' & Hb' & Hs' & Hc').
    exists ((Post req :: evs) ++ evs').
    rewrite Hl', Hl, Hn', Hn, posts_app, sleeps_app, list_sum_app.
    cbn [posts sleeps length map list_sum app]. rewrite Hp.
    rewrite <- app_assoc. cbn [app].
    change (list_sum (2 ^ a :: map (Nat.pow 2) rest))
      with (2 ^ a + list_sum (map (Nat.pow 2) rest)).
    conjuncts.
    apply (posts_carry_app (Post req :: evs) evs'); assumption.
Qed.

(** X9: whatever the network does, one call of [call_llm_api] posts the
    same request between 1 and 3 times, keeps [calls] in step with the
    posts recorded, and sleeps at most 7 time units in all. *)
Theorem call_posts_and_sleeps_bounded (st : state) :
  exists evs,
    log (snd (call st)) = log st ++ evs
    /\ calls (snd (call st)) = calls st + posts evs
    /\ 1 <= posts evs <= 3
    /\ list_sum (sleeps evs) <= 7
    /\ posts_carry req evs.
Proof.
  unfold call, call_llm_api. fold req.
  destruct (retry_loop_events (seq 0 max_retries) st)
    as (evs & Hl & Hn & Hb & Hs & Hc).
  cbn [max_retries seq length map list_sum Nat.pow Nat.min Nat.mul Nat.add]
    in Hb, Hs.
  destruct (retry_loop post req (seq 0 max_retries) st) as [[v| |e] st1];
    cbn [snd] in *.
  - exists evs. conjuncts.
  - exists evs. conjuncts.
  - exists (evs ++ [StError (UnexpectedError e)]).
    cbn [emit log calls]. rewrite Hl, Hn, posts_app, sleeps_app, list_sum_app.
    cbn [posts sleeps list_sum]. rewrite <- app_assoc. conjuncts.
    apply posts_carry_app; [exact Hc | repeat constructor].
Qed.

Lemma attempt_raises_timeout attempt st :
  post req (calls st) = Raise Timeout ->
  attempt_body post req attempt st
  = if attempt <? max_retries - 1
    then (Continue, emit [StWarning (TimeoutRetry (attempt + 2))] (posted req st))
    else (Return py_None, emit [StError TimeoutFinal] (posted req st)).
Proof.
  intros Hp. unfold attempt_body, attempt_try, do_post. rewrite Hp. reflexivity.
Qed.

Lemma attempt_raises_connection attempt st msg :
  post req (calls st) = Raise (RequestException msg) ->
  attempt_body post req attempt st
  = if attempt <? max_retries - 1
    then (Continue,
          emit [StWarning (ConnectionRetry (attempt + 2)); Sleep 1] (posted req st))
    else (Return py_None, emit [StError (ConnectionFailed msg)] (posted req st)).
Proof.
  intros Hp. unfold attempt_body, attempt_try, do_post. rewrite Hp. reflexivity.
Qed.

(** X10: when every attempt times out, the call posts three times
    without sleeping, announces attempts 2 and 3, reports the timeout and
    returns [None]; when every attempt fails with another exception of
    [requests], it sleeps one unit before each retry and reports the
    message of the last exception only. *)
Theorem exhausted_by_exceptions (st : state) :
  ((forall n, n < 3 -> post req (calls st + n) = Raise Timeout) ->
   call st
   = (Ok py_None,
      {| calls := calls st + 3;
         log := log st ++ [Post req; StWarning (TimeoutRetry 2);
                           Post req; StWarning (TimeoutRetry 3);
                           Post req; StError TimeoutFinal] |}))
  /\ (forall m0 m1 m2,
        post req (calls st) = Raise (RequestException m0) ->
        post req (calls st + 1) = Raise (RequestException m1) ->
        post req (calls st + 2) = Raise (RequestException m2) ->
        call st
        = (Ok py_None,
           {| calls := calls st + 3;
              log := log st ++ [Post req; StWarning (ConnectionRetry 2); Sleep 1;
                                Post req; StWarning (ConnectionRetry 3); Sleep 1;
                                Post req; StError (ConnectionFailed m2)] |})).
Proof.
  split.
  - intros H. open_call.
    rewrite (attempt_raises_timeout 0 st)
      by (rewrite <- (Nat.add_0_r (calls st)); apply H; lia).
    cbn [Nat.ltb Nat.leb Nat.sub max_retries].
    set (st1 := emit _ (posted req st)).
    rewrite (attempt_raises_timeout 1 st1)
      by (cbn [st1 emit posted calls]; rewrite <- Nat.add_1_r; apply H; lia).
    cbn [Nat.ltb Nat.leb Nat.sub max_retries].
    set (st2 := emit _ (posted req st1)).
    rewrite (attempt_raises_timeout 2 st2)
      by (cbn [st2 st1 emit posted calls];
          replace (S (S (calls st))) with (calls st + 2) by lia; apply H; lia).
    cbn [Nat.ltb Nat.leb Nat.sub max_retries]. subst st2 st1. unfold emit, posted. cbn.
    rewrite <- !app_assoc. cbn.
    replace (calls st + 3) with (S (S (S (calls st)))) by lia. reflexivity.
  - intros m0 m1 m2 H0 H1 H2. open_call.
    rewrite (attempt_raises_connection 0 st m0 H0).
    cbn [Nat.ltb Nat.leb Nat.sub max_retries].
    set (st1 := emit _ (posted req st)).
    rewrite (attempt_raises_connection 1 st1 m1)
      by (cbn [st1 emit posted calls]; rewrite <- Nat.add_1_r; exact H1).
    cbn [Nat.ltb Nat.leb Nat.sub max_retries].
    set (st2 := emit _ (posted req st1)).
    rewrite (attempt_raises_connection 2 st2 m2)
      by (cbn [st2 st1 emit posted calls];
          replace (S (S (calls st))) with (calls st + 2) by lia; exact H2).
    cbn [Nat.ltb Nat.leb Nat.sub max_retries]. subst st2 st1. unfold emit, posted. cbn.
    rewrite <- !app_assoc. cbn.
    replace (calls st + 3) with (S (S (S (calls st)))) by lia. reflexivity.
Qed.


End ClientRetries.

Lemma transient_then_ok_witness :
  fst (sample_call [Raise Timeout; Ok resp_rate_limited; Ok (resp_ok "Hi!")])
  = Ok (JStr "Hi!")
  /\ calls (snd (sample_call [Raise Timeout; Ok resp_rate_limited;
                              Ok (resp_ok "Hi!")])) = 3.
Proof.
  apply (transient_then_ok
           (scripted [Raise Timeout; Ok resp_rate_limited; Ok (resp_ok "Hi!")])
           sample_messages "gsk_key" "llama-3.1-8b-instant"
           (QArith_base.Qmake 1 10) 4000 2 state_init (resp_ok "Hi!")
           (JObj [("id", JStr "chatcmpl-1");
                  ("choices",
                   JArr [JObj [("index", JNum 0);
                               ("message", JObj [("role", JStr "assistant");
                                                 ("content", JStr "Hi!")])]])])
           (JStr "Hi!"));
    try reflexivity.
  intros [|[|i]] Hi; [reflexivity | reflexivity | lia].
Defined.

Lemma exhausted_by_exceptions_witness :
  sample_call []
  = (Ok py_None,
     {| calls := 3;
        log := [Post sample_request; StWarning (TimeoutRetry 2);
                Post sample_request; StWarning (TimeoutRetry 3);
                Post sample_request; StError TimeoutFinal] |})
  /\ sample_call [Raise (RequestException "refused");
                  Raise (RequestException "reset");
                  Raise (RequestException "unreachable")]
     = (Ok py_None,
        {| calls := 3;
           log := [Post sample_request; StWarning (ConnectionRetry 2); Sleep 1;
                   Post sample_request; StWarning (ConnectionRetry 3); Sleep 1;
                   Post sample_request;
                   StError (ConnectionFailed "unreachable")] |}).
Proof.
  split.
  - apply (proj1 (exhausted_by_exceptions (scripted [])
                    sample_messages "gsk_key" "llama-3.1-8b-instant"
                    (QArith_base.Qmake 1 10) 4000 state_init)).
    intros [|[|[|n]]] Hn; reflexivity.
  - apply (proj2 (exhausted_by_exceptions
                    (scripted [Raise (RequestException "refused");
                               Raise (RequestException "reset");
                               Raise (RequestException "unreachable")])
                    sample_messages "gsk_key" "llama-3.1-8b-instant"
                    (QArith_base.Qmake 1 10) 4000 state_init)
             "refused" "reset" "unreachable"); reflexivity.
Defined.


(** ** The request of a chat turn, continued *)







(** ** The chat handler and the connection test *)

Section SessionFacts.

Variable post : request -> nat -> outcome response.

Lemma call_outcome msgs key mdl temp maxt st :
  exists v st',
    call_llm_api post msgs key mdl temp maxt st = (Ok v, st')
    /\ calls st <= calls st' <= calls st + 3
    /\ (v = py_None
        \/ exists n resp result,
             post (build_request msgs key mdl temp maxt) n = Ok resp
             /\ status_code resp = 200%Z
             /\ resp_json resp = Ok result
             /\ first_content result = Ok v).
Proof.
  unfold call_llm_api.
  destruct (retry_loop_events post msgs key mdl temp maxt (seq 0 max_retries) st)
    as (evs & _ & Hn & Hb & _).
  cbn [max_retries seq length] in Hb.
  destruct (retry_loop post (build_request msgs key mdl temp maxt)
              (seq 0 max_retries) st) as [[v| |e] st1] eqn:Hl; cbn [snd] in Hn.
  - exists v, st1. split; [reflexivity|]. split; [lia|].
    exact (retry_loop_return post msgs key mdl temp maxt _ _ _ _ Hl).
  - exists py_None, st1. split; [reflexivity|]. split; [lia | left; reflexivity].
  - eexists py_None, _. split; [reflexivity|]. cbn [emit calls].
    split; [lia | left; reflexivity].
Qed.

Lemma chat_turn_step t_user t_reply prompt s st s' evs st' :
  Session.chat_turn post t_user t_reply prompt s st = Some (s', evs, st') ->
  Session.api_key s' = Session.api_key s
  /\ Session.model s' = Session.model s
  /\ Session.temperature s' = Session.temperature s
  /\ Session.max_tokens s' = Session.max_tokens s
  /\ calls st <= calls st' <= calls st + 3
  /\ exists new,
       Session.messages s' = Session.messages s ++ new
       /\ length new <= 2
       /\ Forall Session.stored_role new
       /\ (prompt = "" \/ Session.api_key s = "" -> new = [] /\ st' = st)
       /\ (prompt <> "" -> Session.api_key s <> "" ->
           exists tail, new = Session.user_message_of prompt t_user :: tail).
Proof.
  assert (Hidle : forall sh : list Session.shown,
            Some (s, sh, st) = Some (s', evs, st') ->
            prompt = "" \/ Session.api_key s = "" ->
            Session.api_key s' = Session.api_key s
            /\ Session.model s' = Session.model s
            /\ Session.temperature s' = Session.temperature s
            /\ Session.max_tokens s' = Session.max_tokens s
            /\ calls st <= calls st' <= calls st + 3
            /\ exists new,
                 Session.messages s' = Session.messages s ++ new
                 /\ length new <= 2
                 /\ Forall Session.stored_role new
                 /\ (prompt = "" \/ Session.api_key s = "" -> new = [] /\ st' = st)
                 /\ (prompt <> "" -> Session.api_key s <> "" ->
                     exists tail,
                       new = Session.user_message_of prompt t_user :: tail)).
  { intros sh [= <- _ <-] Hor.
    do 4 (split; [reflexivity|]). split; [lia|]. exists [].
    split; [symmetry; apply app_nil_r|]. split; [cbn; lia|].
    split; [constructor|]. split; [auto|].
    intros H1 H2. destruct Hor; contradiction. }
  unfold Session.chat_turn.
  destruct (String.eqb_spec prompt "") as [Hp | Hp].
  { intros H. exact (Hidle _ H (or_introl Hp)). }
  destruct (String.eqb_spec (Session.api_key s) "") as [Hk | Hk].
  { intros H. exact (Hidle _ H (or_intror Hk)). }
  clear Hidle.
  cbn [Session.with_messages Session.messages Session.api_key Session.model
       Session.temperature Session.max_tokens].
  match goal with
  | |- context [call_llm_api post ?m ?k ?md ?t ?mx st] =>
      destruct (call_outcome m k md t mx st) as (v & st1 & -> & Hc & _)
  end.
  fold (Session.user_message_of prompt t_user).
  assert (Huser : Session.stored_role (Session.user_message_of prompt t_user))
    by (left; reflexivity).
  assert (Hnot : prompt = "" \/ Session.api_key s = "" -> False)
    by (intros [? | ?]; contradiction).
  destruct (py_truthy v).
  - destruct v as [| | |answer| |]; try discriminate. intros [= <- <- <-].
    cbn [Session.with_messages Session.messages Session.api_key Session.model
         Session.temperature Session.max_tokens].
    do 4 (split; [reflexivity|]). split; [exact Hc|].
    exists [Session.user_message_of prompt t_user;
            {| role := "assistant"; content := answer; timestamp := t_reply |}].
    split; [rewrite <- app_assoc; reflexivity|]. split; [cbn; lia|].
    split; [constructor; [exact Huser | constructor; [right; reflexivity | constructor]]|].
    split; [intros H; destruct (Hnot H)|].
    intros _ _. eexists. reflexivity.
  - intros [= <- <- <-].
    cbn [Session.with_messages Session.messages Session.api_key Session.model
         Session.temperature Session.max_tokens].
    do 4 (split; [reflexivity|]). split; [exact Hc|].
    exists [Session.user_message_of prompt t_user].
    split; [reflexivity|]. split; [cbn; lia|].
    split; [constructor; [exact Huser | constructor]|].
    split; [intros H; destruct (Hnot H)|].
    intros _ _. eexists. reflexivity.
Qed.


(** X15: over any number of turns the history only grows, by at most two
    messages a turn; if it held only [user] and [assistant] messages
    before, it does so after (no [system] message is ever stored); and the
    network is called at most 3 times a turn. *)
Theorem chat_turns_keep_history turns : forall s st s' st',
  Session.chat_turns post turns s st = Some (s', st') ->
  (exists new,
     Session.messages s' = Session.messages s ++ new
     /\ length new <= 2 * length turns
     /\ Forall Session.stored_role new)
  /\ (Forall Session.stored_role (Session.messages s) ->
      Forall Session.stored_role (Session.messages s'))
  /\ calls st' <= calls st + 3 * length turns
  /\ Session.api_key s' = Session.api_key s.
Proof.
  assert (Hgrow : forall turns s st s' st',
            Session.chat_turns post turns s st = Some (s', st') ->
            (exists new,
               Session.messages s' = Session.messages s ++ new
               /\ length new <= 2 * length turns
               /\ Forall Session.stored_role new)
            /\ calls st' <= calls st + 3 * length turns
            /\ Session.api_key s' = Session.api_key s).
  { clear turns. induction turns as [|[[prompt t_user] t_reply] rest IH];
      intros s st s' st' H.
    - injection H as <- <-. split; [|split; [lia | reflexivity]].
      exists []. split; [symmetry; apply app_nil_r|].
      split; [cbn; lia | constructor].
    - cbn [Session.chat_turns] in H.
      destruct (Session.chat_turn post t_user t_reply prompt s st)
        as [[[s1 evs] st1]|] eqn:Hturn; [|discriminate].
      destruct (chat_turn_step _ _ _ _ _ _ _ _ Hturn)
        as (Hk & _ & _ & _ & Hc & new & Hm & Hl & Hr & _).
      destruct (IH _ _ _ _ H) as ((new' & Hm' & Hl' & Hr') & Hc' & Hk').
      split; [|split; [cbn [length]; lia | congruence]].
      exists (new ++ new'). split; [rewrite Hm', Hm, app_assoc; reflexivity|].
      split; [rewrite length_app; cbn [length]; lia|].
      apply Forall_app. split; assumption. }
  intros s st s' st' H.
  destruct (Hgrow _ _ _ _ _ H) as ((new & Hm & Hl & Hr) & Hc & Hk).
  split; [exists new; auto|]. split; [|split; assumption].
  intros Hs. rewrite Hm. apply Forall_app. split; assumption.
Qed.

(** X16: an answer that is empty (or [None]) counts as a failure: when
    the first response has status 200 and its content is a false value,
    the turn stores the user message only and shows "Failed to generate
    response". *)
Theorem empty_answer_is_failure t_user t_reply prompt s st resp result v :
  prompt <> "" -> Session.api_key s <> "" ->
  let user_message := Session.user_message_of prompt t_user in
  let req := build_request (api_messages (Session.messages s ++ [user_message]))
               (Session.api_key s) (Session.model s)
               (Session.temperature s) (Session.max_tokens s) in
  post req (calls st) = Ok resp ->
  status_code resp = 200%Z ->
  resp_json resp = Ok result ->
  has_choices result = Ok true ->
  first_content result = Ok v ->
  py_truthy v = false ->
  Session.chat_turn post t_user t_reply prompt s st
  = Some (Session.with_messages s (Session.messages s ++ [user_message]),
          [Session.Displayed user_message true; Session.GenerationFailed],
          posted req st).
Proof.
  intros Hp Hk user_message req Hpost Hs Hj Hc Hv Hf.
  unfold Session.chat_turn.
  apply String.eqb_neq in Hp, Hk. rewrite Hp, Hk.
  cbn [Session.with_messages Session.messages Session.api_key Session.model
       Session.temperature Session.max_tokens].
  fold (Session.user_message_of prompt t_user). fold user_message.
  unfold call_llm_api. fold req. cbn [seq max_retries retry_loop].
  rewrite (attempt_ok_content post req 0 st resp result v Hpost Hs Hj Hc Hv).
  rewrite Hf. reflexivity.
Qed.

(** X17: the connection test shows "Connection successful!" only when a
    key is set and some attempt was answered with status 200 and a
    content that is a true value; without a key it shows an error and
    sends nothing. *)
Theorem connection_ok_means_answer key mdl st evs st' :
  Session.test_connection post key mdl st = Some (evs, st') ->
  (key = "" -> evs = [Session.TestKeyMissing] /\ st' = st)
  /\ (In Session.ConnectionOk evs ->
      key <> ""
      /\ exists n resp result v,
           post (build_request Session.probe key mdl (QArith_base.Qmake 1 10) 100) n
           = Ok resp
           /\ status_code resp = 200%Z
           /\ resp_json resp = Ok result
           /\ first_content result = Ok v
           /\ py_truthy v = true).
Proof.
  unfold Session.test_connection.
  destruct (String.eqb_spec key "") as [Hk | Hk].
  { intros [= <- <-]. split; [auto|]. intros [H | []]. discriminate. }
  destruct (call_outcome Session.probe key mdl (QArith_base.Qmake 1 10) 100 st)
    as (v & st1 & -> & _ & Hv).
  destruct (py_truthy v) eqn:Ht; intros [= <- <-].
  - split; [intros; contradiction|]. intros _. split; [exact Hk|].
    destruct Hv as [-> | (n & resp & result & H1 & H2 & H3 & H4)];
      [discriminate|].
    exists n, resp, result, v. auto.
  - split; [intros; contradiction|]. intros [H | []]. discriminate.
Qed.

End SessionFacts.


Lemma chat_turns_keep_history_witness :
  exists s' st',
    Session.chat_turns (scripted [Ok (resp_ok "Hi!"); Ok resp_unauthorized])
      [("Hello", "10:00:00", "10:00:02"); ("More", "10:01:00", "10:01:01")]
      Session.sample_session state_init = Some (s', st')
    /\ Forall Session.stored_role (Session.messages s')
    /\ calls st' <= 6.
Proof.
  eexists _, _. split; [reflexivity|].
  pose proof (chat_turns_keep_history
                (scripted [Ok (resp_ok "Hi!"); Ok resp_unauthorized])
                [("Hello", "10:00:00", "10:00:02"); ("More", "10:01:00", "10:01:01")]
                Session.sample_session state_init _ _ eq_refl)
    as (_ & Hroles & Hc & _).
  split; [apply Hroles; constructor | exact Hc].
Defined.

Lemma empty_answer_is_failure_witness :
  exists st',
    Session.chat_turn (scripted [Ok (resp_ok "")]) "10:00:00" "10:00:02"
      "Hello" Session.sample_session state_init
    = Some (Session.with_messages Session.sample_session
              [Session.user_message_of "Hello" "10:00:00"],
            [Session.Displayed (Session.user_message_of "Hello" "10:00:00") true;
             Session.GenerationFailed],
            st').
Proof.
  eexists.
  refine (empty_answer_is_failure (scripted [Ok (resp_ok "")]) "10:00:00"
            "10:00:02" "Hello" Session.sample_session state_init (resp_ok "")
            _ (JStr "") _ _ eq_refl eq_refl eq_refl eq_refl eq_refl eq_refl);
    discriminate.
Defined.

Lemma connection_ok_means_answer_witness :
  exists n resp result v,
    scripted [Ok resp_rate_limited; Ok (resp_ok "Connection successful!")]
      (build_request Session.probe "gsk_key" "llama-3.1-8b-instant"
         (QArith_base.Qmake 1 10) 100) n = Ok resp
    /\ status_code resp = 200%Z
    /\ resp_json resp = Ok result
    /\ first_content result = Ok v
    /\ py_truthy v = true.
Proof.
  refine (proj2 (proj2 (connection_ok_means_answer
            (scripted [Ok resp_rate_limited; Ok (resp_ok "Connection successful!")])
            "gsk_key" "llama-3.1-8b-instant" state_init
            [Session.ConnectionOk] _ eq_refl) _)).
  left. reflexivity.
Defined.

(** ** The snippet runner: clean-up and frame *)








(** ** The model of the sidebar *)

Lemma index_of_nth x l : forall i,
  Sidebar.index_of x l = Some i -> nth_error l i = Some x.
Proof.
  induction l as [|y l IH]; intros i H; [discriminate|].
  cbn [Sidebar.index_of] in H. destruct (String.eqb_spec x y) as [->|].
  - injection H as <-. reflexivity.
  - destruct (Sidebar.index_of x l) as [j|]; [|discriminate].
    injection H as <-. exact (IH j eq_refl).
Qed.

Lemma index_of_none x l : Sidebar.index_of x l = None -> ~ In x l.
Proof.
  induction l as [|y l IH]; intros H; [intros []|].
  cbn [Sidebar.index_of] in H. destruct (String.eqb_spec x y) as [->|Hne];
    [discriminate|].
  destruct (Sidebar.index_of x l) as [j|]; [discriminate|].
  intros [Hy | Hin]; [congruence | exact (IH eq_refl Hin)].
Qed.

(** X21: the model of a run is always one of the keys of [GROQ_MODELS],
    as long as the select box answers with one of its 9 options.  Left
    alone, the box keeps the model of the session when that is a key, and
    falls back to the first key, [llama-3.1-8b-instant], when it is not. *)
Theorem sidebar_model_is_known (session_model : string) (choice : option nat) :
  (forall i, choice = Some i -> i < length Sidebar.model_keys) ->
  exists m,
    Sidebar.sidebar_model session_model choice = Some m
    /\ In m Sidebar.model_keys
    /\ (choice = None -> In session_model Sidebar.model_keys -> m = session_model)
    /\ (choice = None -> ~ In session_model Sidebar.model_keys ->
        m = "llama-3.1-8b-instant").
Proof.
  intros Hrange. unfold Sidebar.sidebar_model, Sidebar.selected_index.
  destruct choice as [i|].
  - specialize (Hrange i eq_refl).
    destruct (nth_error Sidebar.model_keys i) as [m|] eqn:Hn.
    + exists m. split; [reflexivity|]. split; [exact (nth_error_In _ _ Hn)|].
      split; discriminate.
    + apply nth_error_None in Hn. lia.
  - destruct (Sidebar.index_of session_model Sidebar.model_keys) as [i|] eqn:Hi.
    + pose proof (index_of_nth _ _ _ Hi) as Hn. exists session_model.
      split; [exact Hn|]. split; [exact (nth_error_In _ _ Hn)|].
      split; [reflexivity|]. intros _ Hnot. destruct Hnot.
      exact (nth_error_In _ _ Hn).
    + exists "llama-3.1-8b-instant". split; [reflexivity|].
      split; [left; reflexivity|]. split; [|reflexivity].
      intros _ Hin. destruct (index_of_none _ _ Hi Hin).
Qed.

Lemma sidebar_model_is_known_witness :
  exists m,
    Sidebar.sidebar_model "gpt-4" None = Some m
    /\ In m Sidebar.model_keys
    /\ (None = None :> option nat -> In "gpt-4" Sidebar.model_keys -> m = "gpt-4")
    /\ (None = None :> option nat -> ~ In "gpt-4" Sidebar.model_keys ->
        m = "llama-3.1-8b-instant").
Proof.
  apply (sidebar_model_is_known "gpt-4" None). intros i H. discriminate.
Defined.

(** ** Showing a message *)

Lemma codes_shown_app a b :
  Display.codes_shown (a ++ b) = Display.codes_shown a ++ Display.codes_shown b.
Proof.
  induction a as [|x a IH]; [reflexivity|].
  destruct x; cbn [app Display.codes_shown]; rewrite IH; reflexivity.
Qed.

Lemma codes_shown_markdown ts : Display.codes_shown (map Display.Markdown ts) = [].
Proof. induction ts as [|t ts IH]; [reflexivity | exact IH]. Qed.

Lemma run_block_codes e block w :
  Display.codes_shown (fst (Display.run_block e block w)) = [].
Proof.
  unfold Display.run_block.
  destruct (Runner.run_code e _ _ w) as [[[] output] w1]; [|reflexivity].
  destruct (nonempty (strip (list_ascii_of_string output))); reflexivity.
Qed.

Lemma show_blocks_codes envs clicked n blocks : forall i w,
  Display.codes_shown (fst (Display.show_blocks envs clicked n i blocks w))
  = map (fun b => (language b, code b)) blocks.
Proof.
  induction blocks as [|block rest IH]; intros i w; [reflexivity|].
  cbn [Display.show_blocks].
  assert (Hrun : forall run w1,
            Display.codes_shown run = [] ->
            Display.codes_shown
              (fst (let '(others, w2) :=
                      Display.show_blocks envs clicked n (S i) rest w1 in
                    ([Display.Badge (language block);
                      Display.Code (code block) (language block)]
                     ++ run ++ others, w2)))
            = map (fun b => (language b, code b)) (block :: rest)).
  { intros run w1 Hr. specialize (IH (S i) w1).
    destruct (Display.show_blocks envs clicked n (S i) rest w1) as [others w2].
    cbn [fst] in *. cbn [app Display.codes_shown map].
    rewrite codes_shown_app, Hr, IH. reflexivity. }
  destruct (Display.runnable (language block)); [|apply Hrun; reflexivity].
  destruct (clicked i); [|apply Hrun; reflexivity].
  pose proof (run_block_codes (envs i) block w) as Hb.
  destruct (Display.run_block (envs i) block w) as [result w']. cbn [fst] in Hb.
  apply Hrun. exact Hb.
Qed.

(** X22: whatever is clicked, an assistant message shows every block that
    [extract_code_blocks] finds in its content, once, in that order, with
    its language and its trimmed code; a user message shows no code
    block. *)
Theorem display_shows_every_block envs clicked n message is_user w :
  Display.codes_shown
    (fst (Display.display_message envs clicked n message is_user w))
  = if is_user then []
    else map (fun b => (language b, code b))
           (extract_code_blocks (list_ascii_of_string (content message))).
Proof.
  unfold Display.display_message. destruct is_user; [reflexivity|].
  destruct (extract_code_blocks (list_ascii_of_string (content message)))
    as [|b bs] eqn:Hb; [reflexivity|].
  cbn [nonempty].
  pose proof (show_blocks_codes envs clicked n (b :: bs) 0 w) as H.
  destruct (Display.show_blocks envs clicked n 0 (b :: bs) w) as [blocks w1].
  cbn [fst] in *. cbn [Display.codes_shown].
  rewrite codes_shown_app, codes_shown_markdown. exact H.
Qed.

Lemma run_code_script_ops e code language w :
  language = "python" \/ language = "javascript" ->
  exists l,
    ops (snd (run_code e code language w)) = ops w ++ l /\ Forall Display.script_op l.
Proof.
  assert (Hnil : exists l, ops w = ops w ++ l /\ Forall Display.script_op l).
  { exists []. rewrite app_nil_r. split; [reflexivity | constructor]. }
  assert (Hpy : Display.script_path (tmp_stem e +:+ ".py"))
    by (exists (tmp_stem e); left; reflexivity).
  assert (Hjs : Display.script_path (tmp_stem e +:+ ".js"))
    by (exists (tmp_stem e); right; reflexivity).
  assert (Hafter : forall r p wr,
            Display.script_path p ->
            ops wr = ops w ++ [Created p] ->
            exists l,
              ops (snd (after_run r p wr)) = ops w ++ l /\ Forall Display.script_op l).
  { intros [rc out err| |msg] p wr Hp Hw; unfold after_run.
    - exists [Created p; Unlinked p].
      destruct (rc =? 0)%Z; cbn [snd unlink ops]; rewrite Hw, <- app_assoc;
        (split; [reflexivity | repeat constructor; exact Hp]).
    - exists [Created p]. split; [exact Hw | repeat constructor; exact Hp].
    - exists [Created p]. split; [exact Hw | repeat constructor; exact Hp]. }
  intros [-> | ->]; unfold run_code;
    [rewrite registry_python | rewrite registry_javascript]; cbn [extension];
    (destruct (create_raises e); [exact Hnil|]);
    (destruct (write_raises e);
     [eexists [Created _]; split; [reflexivity | repeat constructor; assumption]|]);
    cbn [String.eqb Ascii.eqb Bool.eqb];
    apply Hafter; first [assumption | reflexivity].
Qed.

Lemma runnable_language l :
  Display.runnable l = true ->
  string_of_list_ascii l = "python" \/ string_of_list_ascii l = "javascript".
Proof.
  unfold Display.runnable. intros H. apply orb_true_iff in H as [H | H];
    apply String.eqb_eq in H; auto.
Qed.

Lemma show_blocks_ops envs clicked n blocks : forall i w,
  (exists l,
     ops (snd (Display.show_blocks envs clicked n i blocks w)) = ops w ++ l
     /\ Forall Display.script_op l)
  /\ ((forall j, clicked j = false) ->
      snd (Display.show_blocks envs clicked n i blocks w) = w).
Proof.
  induction blocks as [|block rest IH]; intros i w.
  - split; [|reflexivity]. exists []. rewrite app_nil_r.
    split; [reflexivity | constructor].
  - cbn [Display.show_blocks].
    assert (Hstep : forall (run : list Display.widget) w1,
              (exists l, ops w1 = ops w ++ l /\ Forall Display.script_op l) ->
              ((forall j, clicked j = false) -> w1 = w) ->
              (exists l,
                 ops (snd (let '(others, w2) :=
                             Display.show_blocks envs clicked n (S i) rest w1 in
                           ([Display.Badge (language block);
                             Display.Code (code block) (language block)]
                            ++ run ++ others, w2)))
                 = ops w ++ l /\ Forall Display.script_op l)
              /\ ((forall j, clicked j = false) ->
                  snd (let '(others, w2) :=
                         Display.show_blocks envs clicked n (S i) rest w1 in
                       ([Display.Badge (language block);
                         Display.Code (code block) (language block)]
                        ++ run ++ others, w2)) = w)).
    { intros run w1 (l1 & Hl1 & Hf1) Hsame.
      destruct (IH (S i) w1) as ((l2 & Hl2 & Hf2) & Hno).
      destruct (Display.show_blocks envs clicked n (S i) rest w1) as [others w2].
      cbn [snd] in *. split.
      - exists (l1 ++ l2). rewrite Hl2, Hl1, app_assoc.
        split; [reflexivity | apply Forall_app; split; assumption].
      - intros Hc. rewrite (Hno Hc). exact (Hsame Hc). }
    assert (Hidle : exists l, ops w = ops w ++ l /\ Forall Display.script_op l).
    { exists []. rewrite app_nil_r. split; [reflexivity | constructor]. }
    destruct (Display.runnable (language block)) eqn:Hr;
      [|apply Hstep; [exact Hidle | reflexivity]].
    destruct (clicked i) eqn:Hc; [|apply Hstep; [exact Hidle | reflexivity]].
    unfold Display.run_block.
    pose proof (run_code_script_ops (envs i)
                  (string_of_list_ascii (code block))
                  (string_of_list_ascii (language block)) w
                  (runnable_language _ Hr)) as Hops.
    destruct (run_code (envs i) (string_of_list_ascii (code block))
                (string_of_list_ascii (language block)) w)
      as [[success output] w1].
    cbn [snd] in Hops.
    destruct success; apply Hstep; try exact Hops;
      intros Hall; rewrite Hall in Hc; discriminate.
Qed.

(** X23: showing a message changes the disk only through a click on
    "Run": for a user message, or when no button is pressed, the world is
    left as it was; and whatever is clicked, the only files created or
    unlinked are temporary [.py] and [.js] files, because a button exists
    for [python] and [javascript] blocks only. *)
Theorem display_runs_only_scripts envs clicked n message is_user w :
  (exists l,
     ops (snd (Display.display_message envs clicked n message is_user w))
     = ops w ++ l
     /\ Forall Display.script_op l)
  /\ (is_user = true \/ (forall j, clicked j = false) ->
      snd (Display.display_message envs clicked n message is_user w) = w).
Proof.
  assert (Hidle : exists l, ops w = ops w ++ l /\ Forall Display.script_op l).
  { exists []. rewrite app_nil_r. split; [reflexivity | constructor]. }
  unfold Display.display_message. destruct is_user; [split; [exact Hidle | reflexivity]|].
  destruct (nonempty (extract_code_blocks (list_ascii_of_string (content message))));
    [|split; [exact Hidle | reflexivity]].
  destruct (show_blocks_ops envs clicked n
              (extract_code_blocks (list_ascii_of_string (content message))) 0 w)
    as (Hops & Hno).
  destruct (Display.show_blocks envs clicked n 0
              (extract_code_blocks (list_ascii_of_string (content message))) w)
    as [blocks w1].
  cbn [snd] in *. split; [exact Hops|].
  intros [H | H]; [discriminate | exact (Hno H)].
Qed.

Lemma display_runs_only_scripts_witness :
  snd (Display.display_message (fun _ => sample_env TimeoutExpired)
         (fun _ => false) 1
         {| role := "assistant"; content := "```python
print(1)
```"; timestamp := "10:00:02" |} false world_init)
  = world_init.
Proof.
  apply (proj2 (display_runs_only_scripts (fun _ => sample_env TimeoutExpired)
                  (fun _ => false) 1
                  {| role := "assistant"; content := "```python
print(1)
```"; timestamp := "10:00:02" |} false world_init)).
  right. intros j. reflexivity.
Defined.
